(** * bends: Build Error Notification Dispatch System

    A shallow embedding of [src/lambda/bends.py] and the properties of its
    build-history classifier, ledger builder, renderers and dispatcher.

    Conventions of the embedding:
    - a [datetime] is the number of microseconds since the epoch, a [Z];
      [created_on] holds the timestamp the code parses out of the record;
    - a Python [dict] is an insertion-ordered association list with the
      lookups and stores the code performs ([dict_get], [dict_set],
      [dict_keys]);
    - the outside world (wall clock, Bitbucket, Slack, the process
      environment) is a state [W] threaded through every call, with the
      operations of class [Collaborators];
    - an exception is a value of [pyerror], carried by [exn]. *)

From stdpp Require Import base list strings pretty.
From Stdlib Require Import ZArith Lia Ascii.

Local Open Scope string_scope.

(** ** Exceptions and the effect monad *)

Inductive pyerror : Type :=
  | TypeError
  | IndexError
  | KeyError
  | ValueError
  | ReError
  | SystemExit.

Inductive exn (A : Type) : Type :=
  | Ok (a : A)
  | Raise (e : pyerror).
Arguments Ok {A} a.
Arguments Raise {A} e.

(** A computation over a world [W]: the outcome and the world it leaves. *)
Definition M (W A : Type) : Type := W -> exn A * W.

Definition ret {W A} (a : A) : M W A := fun w => (Ok a, w).

Definition raise {W A} (e : pyerror) : M W A := fun w => (Raise e, w).

Definition bind {W A B} (c : M W A) (k : A -> M W B) : M W B :=
  fun w =>
    match c w with
    | (Ok a, w1) => k a w1
    | (Raise e, w1) => (Raise e, w1)
    end.

(** A computation that cannot raise. *)
Definition lift {W A} (c : W -> A * W) : M W A :=
  fun w => let '(a, w1) := c w in (Ok a, w1).

Notation "'let!' x ':=' c1 'in' c2" := (bind c1 (fun x => c2))
  (at level 10, x name, c1 at level 100, c2 at level 200).

(** [for x in xs: body x], stopping at the first exception. *)
Fixpoint for_each {W A} (body : A -> M W unit) (xs : list A) : M W unit :=
  match xs with
  | [] => ret tt
  | x :: rest => let! _ := body x in for_each body rest
  end.

(** ** Dictionaries *)

Definition dict (V : Type) : Type := list (string * V).

Fixpoint dict_get {V} (k : string) (d : dict V) : option V :=
  match d with
  | [] => None
  | (k', v) :: rest => if String.eqb k k' then Some v else dict_get k rest
  end.

(** [d[k] = v]: an existing key keeps its place, a new one goes last. *)
Fixpoint dict_set {V} (k : string) (v : V) (d : dict V) : dict V :=
  match d with
  | [] => [(k, v)]
  | (k', v') :: rest =>
      if String.eqb k k' then (k', v) :: rest else (k', v') :: dict_set k v rest
  end.

Definition dict_keys {V} (d : dict V) : list string := map fst d.

(** ** Data model *)

(** One pipeline run as Bitbucket reports it; only the fields the code reads:
    [created_on], [trigger.name], [target.selector.pattern] and
    [state.result.name] (absent while the run is in progress). *)
Record pipeline : Type := Pipeline {
  created_on : Z;
  trigger_name : string;
  target_pattern : string;
  state_result : option string;
}.

Record service : Type := Service {
  RepositorySlug : string;
  RepositoryUrl : string;
}.

Record team_builds : Type := TeamBuilds {
  Succeeded : list service;
  Failed : list service;
}.

#[global] Instance pipeline_eq_dec : EqDecision pipeline.
Proof. solve_decision. Defined.

#[global] Instance service_eq_dec : EqDecision service.
Proof. solve_decision. Defined.

(** What the branch listing request can come back as. *)
Inductive branches_response : Type :=
  | BranchesError (message : string)
  | BranchesNotJson (reason : string)
  | BranchesValues (names : list string).

(** What the pipeline listing request can come back as; ['values'] is read
    with [.get] and may be missing. *)
Inductive pipelines_response : Type :=
  | PipelinesError (message : string)
  | PipelinesNotJson (reason : string)
  | PipelinesValues (values : option (list pipeline)).

(** Slack message blocks: a header carries a [plain_text] object, a section
    a [mrkdwn] one. *)
Inductive text_type : Type := plain_text | mrkdwn.

Record text_object : Type := TextObject {
  text_kind : text_type;
  text : string;
}.

Inductive block : Type :=
  | header (t : text_object)
  | divider
  | section (t : text_object).

Record slack_payload : Type := SlackPayload {
  blocks : list block;
  channel : string;
}.

(** The argument [match_override] receives: Python does not check it against
    the annotation [repo_slug: str]. *)
Inductive pyarg : Type :=
  | PyStr (s : string)
  | PyDict (d : service).

(** ** Collaborators *)

Class Collaborators (W : Type) : Type := {
  (** [datetime.now(tz=timezone.utc)], read again at every use *)
  datetime_now : W -> Z * W;
  (** GET [/repositories/WORKSPACE/slug/refs/branches/] *)
  http_get_branches : string -> W -> branches_response * W;
  (** GET [/repositories/WORKSPACE/slug/pipelines] sorted by [-created_on] *)
  http_get_pipelines : string -> W -> pipelines_response * W;
  (** [os.environ.get] *)
  environ_get : string -> W -> option string;
  (** [requests.post] followed by [raise_for_status]; whether it fails is
      of no consequence to the caller, which swallows the exception *)
  requests_post : string -> slack_payload -> W -> W;
}.

(** Python's [re]: [re.compile] raises [re.error] on a malformed pattern
    ([None] here), [Pattern.search] looks for a match anywhere in a string. *)
Class RegexLib : Type := {
  regex : Type;
  re_compile : string -> option regex;
  re_search : regex -> string -> bool;
}.

(** [timedelta(weeks=1)] *)
Definition recent : Z := 7 * 24 * 3600 * 1000000.

(** [pattern == branch] where [branch] may be [None] *)
Definition py_eq_branch (pattern : string) (branch : option string) : bool :=
  match branch with
  | Some b => String.eqb pattern b
  | None => false
  end.

Section Classifier.
Context {W : Type} {HC : Collaborators W}.

Definition get_default_branch (repo_slug : string) : M W (option string) :=
  fun w =>
    let '(response, w1) := http_get_branches repo_slug w in
    match response with
    | BranchesError _ => (Ok None, w1)
    | BranchesNotJson _ => (Ok None, w1)
    | BranchesValues [] => (Raise IndexError, w1)
    | BranchesValues (b :: _) => (Ok (Some b), w1)
    end.

(** The [for] loop of [get_recent_scheduled_pipeline]. *)
Fixpoint get_recent_scheduled_pipeline_loop (branch : option string)
    (pipelines : list pipeline) (w : W) : option pipeline * W :=
  match pipelines with
  | [] => (None, w)
  | pipeline :: rest =>
      let '(today, w1) := datetime_now w in
      if (today - created_on pipeline <=? recent)%Z then
        if String.eqb (trigger_name pipeline) "SCHEDULE"
           && py_eq_branch (target_pattern pipeline) branch
        then (Some pipeline, w1)
        else get_recent_scheduled_pipeline_loop branch rest w1
      else (None, w1)
  end.

Definition get_recent_scheduled_pipeline (repo_slug : string)
    (pipelines : list pipeline) : M W (option pipeline) :=
  let! branch := get_default_branch repo_slug in
  lift (get_recent_scheduled_pipeline_loop branch pipelines).

(** The [for] loop of [check_development_status], from a given value of the
    counter [recent_pipelines]. *)
Fixpoint check_development_status_loop (recent_pipelines : nat)
    (pipelines : list pipeline) (w : W) : bool * W :=
  match pipelines with
  | [] => (false, w)
  | pipeline :: rest =>
      let '(today, w1) := datetime_now w in
      if (today - created_on pipeline <=? recent)%Z then
        let recent_pipelines := S recent_pipelines in
        if negb (String.eqb (trigger_name pipeline) "SCHEDULE")
           || Nat.ltb 1 recent_pipelines
        then (true, w1)
        else check_development_status_loop recent_pipelines rest w1
      else (false, w1)
  end.

Definition check_development_status (pipelines : list pipeline) (w : W)
    : bool * W :=
  check_development_status_loop 0 pipelines w.

Definition get_latest_pipelines (repo_slug : string) (w : W)
    : option (list pipeline) * W :=
  let '(response, w1) := http_get_pipelines repo_slug w in
  match response with
  | PipelinesError _ => (None, w1)
  | PipelinesNotJson _ => (None, w1)
  | PipelinesValues pipelines => (pipelines, w1)
  end.

(** The records a scan meets before its hard stop: the longest prefix whose
    records are each no older than [recent] at the clock reading of their
    iteration. *)
Fixpoint within_window (pipelines : list pipeline) (w : W) : list pipeline :=
  match pipelines with
  | [] => []
  | pipeline :: rest =>
      let '(today, w1) := datetime_now w in
      if (today - created_on pipeline <=? recent)%Z
      then pipeline :: within_window rest w1
      else []
  end.

(** A record is [stale] at a world when the next clock reading finds it
    older than [recent]. *)
Definition stale (p : pipeline) (w : W) : Prop :=
  (recent < fst (datetime_now w) - created_on p)%Z.

End Classifier.

(** ** The ledger builder *)

(** Truthiness of an optional list argument: [None] and [[]] are falsy. *)
Definition truthy {A} (o : option (list A)) : bool :=
  match o with
  | Some (_ :: _) => true
  | _ => false
  end.

Definition list_of {A} (o : option (list A)) : list A :=
  match o with
  | Some l => l
  | None => []
  end.

Section Ledger.
Context {W : Type} {HC : Collaborators W} {HR : RegexLib}.

Fixpoint match_override (repo_slug : pyarg) (override : list string)
    : exn bool :=
  match override with
  | [] => Ok false
  | pattern :: rest =>
      match re_compile pattern with
      | None => Raise ReError
      | Some pattern =>
          match repo_slug with
          | PyStr s =>
              if re_search pattern s then Ok true
              else match_override repo_slug rest
          | PyDict _ => Raise TypeError
          end
      end
  end.

(** Lines 461-464: the call passes [service], the whole entry. *)
Definition overridden (override : option (list string)) (service : service)
    : exn bool :=
  if truthy override then match_override (PyDict service) (list_of override)
  else Ok false.

(** Lines 477-486, for a recent scheduled pipeline that was found. *)
Definition record_build (service : service) (recent_scheduled_pipeline : pipeline)
    (builds : team_builds) : team_builds :=
  let build_state := state_result recent_scheduled_pipeline in
  if match build_state with
     | Some name => String.eqb name "FAILED"
     | None => false
     end
  then {| Succeeded := Succeeded builds;
          Failed := (Failed builds ++ [service])%list |}
  else {| Succeeded := (Succeeded builds ++ [service])%list;
          Failed := Failed builds |}.

(** The body of [for service in teams_services[team]], acting on the entry
    [teams_recent_builds[team]]. *)
Definition process_service (override : option (list string))
    (service : service) (builds : team_builds) : M W team_builds :=
  let repo_slug := RepositorySlug service in
  let! skip := (fun w => (overridden override service, w)) in
  if skip then ret builds
  else
    let! pipelines := lift (get_latest_pipelines repo_slug) in
    match pipelines with
    | None => ret builds
    | Some [] => ret builds
    | Some pipelines =>
        let! in_development := lift (check_development_status pipelines) in
        if in_development then ret builds
        else
          let! recent_scheduled_pipeline :=
            get_recent_scheduled_pipeline repo_slug pipelines in
          match recent_scheduled_pipeline with
          | None => ret builds
          | Some p => ret (record_build service p builds)
          end
    end.

Fixpoint process_team_services (override : option (list string))
    (services : list service) (builds : team_builds) : M W team_builds :=
  match services with
  | [] => ret builds
  | service :: rest =>
      let! builds := process_service override service builds in
      process_team_services override rest builds
  end.

(** [for team in teams_services.keys()], over the keys still to visit. *)
Fixpoint process_teams (teams override : option (list string))
    (teams_services : dict (list service)) (keys : list string)
    (teams_recent_builds : dict team_builds) : M W (dict team_builds) :=
  match keys with
  | [] => ret teams_recent_builds
  | team :: rest =>
      if truthy teams && negb (bool_decide (team ∈ list_of teams)) then
        process_teams teams override teams_services rest teams_recent_builds
      else
        let empty := {| Succeeded := []; Failed := [] |} in
        let teams_recent_builds := dict_set team empty teams_recent_builds in
        match dict_get team teams_services with
        | None => raise KeyError
        | Some services =>
            let! builds := process_team_services override services empty in
            process_teams teams override teams_services rest
              (dict_set team builds teams_recent_builds)
        end
  end.

(** Lines 446-487 of [process_services]: the value of [teams_recent_builds]
    once every team is processed. [teams_services] is the inventory, read
    from the data file or from the service catalog. *)
Definition process_services_builds (teams override : option (list string))
    (teams_services : dict (list service)) : M W (dict team_builds) :=
  process_teams teams override teams_services (dict_keys teams_services) [].

End Ledger.

(** ** The renderers *)

(** The line feed of Python's ["\n"]. *)
Definition nl : string := String (Ascii.ascii_of_nat 10) EmptyString.

Definition title : block :=
  header (TextObject plain_text "Build Error Notification Dispatch System").

(** [for build in builds: text += ">• <" + url + "|" + slug + ">\n"] *)
Definition failed_lines (text : string) (builds : list service) : string :=
  fold_left
    (fun text build =>
       text ++ (">• <" ++ RepositoryUrl build ++ "|" ++ RepositorySlug build
                ++ ">" ++ nl))
    builds text.

(** What one iteration of the loop of [generate_overall_summary] appends to
    [summary]. *)
Definition overall_team_blocks (team : string) (builds : team_builds)
    : list block :=
  let summary :=
    [divider; section (TextObject mrkdwn ("Team: *" ++ team ++ "*"))] in
  if Nat.eqb (length (Succeeded builds)) 0 && Nat.eqb (length (Failed builds)) 0
  then
    (summary ++ [section (TextObject mrkdwn
                   "No scheduled builds in repositories not in development.")])%list
  else
    let successful_builds := length (Succeeded builds) in
    let text := "*Successful Builds*" ++ nl in
    let text :=
      if Nat.eqb successful_builds 1
      then text ++ (">*" ++ pretty successful_builds
                    ++ " repository* had a successful build.")
      else text ++ (">*" ++ pretty successful_builds
                    ++ " repositories* had successful builds.") in
    let summary := (summary ++ [section (TextObject mrkdwn text)])%list in
    let text := "*Failed Builds*" ++ nl in
    let text :=
      if negb (Nat.eqb (length (Failed builds)) 0)
      then failed_lines text (Failed builds)
      else text ++ ">No failed builds." in
    (summary ++ [section (TextObject mrkdwn text)])%list.

Fixpoint generate_overall_summary_loop (teams_recent_builds : dict team_builds)
    (keys : list string) (summary : list block) : exn (list block) :=
  match keys with
  | [] => Ok summary
  | team :: rest =>
      match dict_get team teams_recent_builds with
      | None => Raise KeyError
      | Some builds =>
          generate_overall_summary_loop teams_recent_builds rest
            (summary ++ overall_team_blocks team builds)%list
      end
  end.

Definition generate_overall_summary (teams_recent_builds : dict team_builds)
    : exn (list block) :=
  generate_overall_summary_loop teams_recent_builds
    (dict_keys teams_recent_builds) [title].

(** [summary_blocks] as one iteration of the loop of
    [generate_team_summaries] builds it, for a team with failed builds. *)
Definition team_summary_blocks (builds : team_builds) : list block :=
  let summary_blocks := [title; divider] in
  let successful_builds := length (Succeeded builds) in
  let text := "*Successful Builds*" ++ nl in
  let text :=
    if Nat.eqb successful_builds 1
    then text ++ (">*" ++ pretty successful_builds
                  ++ " repository* had a successful build.")
    else text ++ (">*" ++ pretty successful_builds
                  ++ " repositories* had successful builds.") in
  let summary_blocks :=
    (summary_blocks ++ [section (TextObject mrkdwn text); divider])%list in
  let text := "*Failed Builds*" ++ nl in
  let text :=
    if negb (Nat.eqb (length (Failed builds)) 0)
    then failed_lines text (Failed builds)
    else ">No failed builds." in
  (summary_blocks ++ [section (TextObject mrkdwn text)])%list.

Fixpoint generate_team_summaries_loop (teams_recent_builds : dict team_builds)
    (keys : list string) (team_summaries : dict (list block))
    : exn (dict (list block)) :=
  match keys with
  | [] => Ok team_summaries
  | team :: rest =>
      match dict_get team teams_recent_builds with
      | None => Raise KeyError
      | Some builds =>
          if Nat.eqb (length (Failed builds)) 0 then
            generate_team_summaries_loop teams_recent_builds rest team_summaries
          else
            generate_team_summaries_loop teams_recent_builds rest
              (dict_set team (team_summary_blocks builds) team_summaries)
      end
  end.

Definition generate_team_summaries (teams_recent_builds : dict team_builds)
    : exn (dict (list block)) :=
  generate_team_summaries_loop teams_recent_builds
    (dict_keys teams_recent_builds) [].

(** ** The dispatcher *)

(** [range(0, stop, step)] for a positive [step]; [fuel] bounds the number of
    values, [stop] of them are enough. *)
Fixpoint range_from (fuel i stop step : nat) : list nat :=
  match fuel with
  | 0 => []
  | S fuel =>
      if Nat.ltb i stop then i :: range_from fuel (i + step) stop step else []
  end.

Definition range0 (stop step : nat) : list nat := range_from stop 0 stop step.

(** [l[i:j]] for [0 <= i <= j] *)
Definition slice {A} (l : list A) (i j : nat) : list A := take (j - i) (drop i l).

Definition OVERALL_SUMMARY_RECIPIENT : string := "".

Section Dispatcher.
Context {W : Type} {HC : Collaborators W} {HR : RegexLib}.

Definition post_to_slack (team : string) (blocks : list block) : M W unit :=
  fun w =>
    match environ_get "SLACK_WEBHOOK_URL" w with
    | None => (Raise SystemExit, w)
    | Some "" => (Raise SystemExit, w)
    | Some slack_webhook_url =>
        let payload :=
          {| blocks := blocks; channel := "team-" ++ team ++ "-bots" |} in
        (Ok tt, requests_post slack_webhook_url payload w)
    end.

(** The inner loop: one call per start index [i]. *)
Definition post_chunks (team : string) (summary : list block)
    (max_blocks_per_message : nat) (starts : list nat) : M W unit :=
  for_each
    (fun i =>
       let chunked_summary_blocks :=
         slice summary i (i + max_blocks_per_message) in
       post_to_slack team chunked_summary_blocks)
    starts.

Fixpoint post_team_summaries_loop (summaries : dict (list block))
    (max_blocks_per_message : nat) (keys : list string) : M W unit :=
  match keys with
  | [] => ret tt
  | team :: rest =>
      match dict_get team summaries with
      | None => raise KeyError
      | Some summary =>
          if Nat.eqb max_blocks_per_message 0 then raise ValueError
          else
            let! _ :=
              post_chunks team summary max_blocks_per_message
                (range0 (length summary) max_blocks_per_message) in
            post_team_summaries_loop summaries max_blocks_per_message rest
      end
  end.

Definition post_team_summaries_to_slack (summaries : dict (list block))
    (max_blocks_per_message : nat) : M W unit :=
  post_team_summaries_loop summaries max_blocks_per_message
    (dict_keys summaries).

(** [process_services] after the inventory is loaded. A dry run only logs. *)
Definition process_services (teams override : option (list string))
    (teams_services : dict (list service)) (dry_run : bool) : M W unit :=
  let! teams_recent_builds :=
    process_services_builds teams override teams_services in
  if dry_run then ret tt
  else
    let! overall_summary :=
      (fun w => (generate_overall_summary teams_recent_builds, w)) in
    let! team_summaries :=
      (fun w => (generate_team_summaries teams_recent_builds, w)) in
    let team_summaries :=
      dict_set OVERALL_SUMMARY_RECIPIENT overall_summary team_summaries in
    post_team_summaries_to_slack team_summaries 10.

End Dispatcher.

(** ** Vocabulary of the specification *)

(** [chunks n l]: the consecutive pieces of [l] of [n] elements each, the last
    one possibly shorter. *)
Definition chunks {A} (n : nat) (l : list A) : list (list A) :=
  map (fun k => take n (drop (k * n) l)) (seq 0 (Nat.div (length l + (n - 1)) n)).

(** The delivery calls a mapping of summaries asks for, in order. *)
Definition deliveries (summaries : dict (list block)) (n : nat)
    : list (string * list block) :=
  flat_map
    (fun team =>
       map (pair team) (chunks n (default [] (dict_get team summaries))))
    (dict_keys summaries).

(** The test of [get_recent_scheduled_pipeline]: a scheduled run whose
    target is the default branch. *)
Definition scheduled_on (branch : option string) (p : pipeline) : bool :=
  String.eqb (trigger_name p) "SCHEDULE" && py_eq_branch (target_pattern p) branch.

(** One failed repository as a link line of the failure section. *)
Definition link_line (build : service) : string :=
  ">• <" ++ RepositoryUrl build ++ "|" ++ RepositorySlug build ++ ">" ++ nl.

(** The success-count section as the specification words it: singular for
    one repository, plural for any other count. *)
Definition success_text (n : nat) : string :=
  "*Successful Builds*" ++ nl ++ ">*"
  ++ (if decide (n = 1) then "1 repository* had a successful build."
      else pretty n ++ " repositories* had successful builds.").

Definition success_section (n : nat) : block :=
  section (TextObject mrkdwn (success_text n)).

(** How the visit of one service ends. *)
Inductive outcome : Type :=
  | Ignored
  | NoHistory
  | InDevelopment
  | NoRecentBuild
  | BuildSucceeded
  | BuildFailed.

#[global] Instance outcome_eq_dec : EqDecision outcome.
Proof. solve_decision. Defined.

Definition skipped (o : outcome) : bool :=
  match o with
  | BuildSucceeded | BuildFailed => false
  | _ => true
  end.

(** The services of [services] whose visit ended in [o], in order. *)
Definition select (o : outcome) (services : list service)
    (outcomes : list outcome) : list service :=
  map fst (filter (fun so => snd so = o) (zip services outcomes)).

(** What a visit that ended in [o] does to the team's entry. *)
Definition record_outcome (o : outcome) (s : service) (builds : team_builds)
    : team_builds :=
  match o with
  | BuildSucceeded =>
      {| Succeeded := (Succeeded builds ++ [s])%list; Failed := Failed builds |}
  | BuildFailed =>
      {| Succeeded := Succeeded builds; Failed := (Failed builds ++ [s])%list |}
  | _ => builds
  end.

Section Visits.
Context {W : Type} {HC : Collaborators W} {HR : RegexLib}.

(** The path one iteration of the service loop takes. *)
Definition visit (override : option (list string)) (service : service)
    : M W outcome :=
  let! skip := (fun w => (overridden override service, w)) in
  if skip then ret Ignored
  else
    let! pipelines := lift (get_latest_pipelines (RepositorySlug service)) in
    match pipelines with
    | None => ret NoHistory
    | Some [] => ret NoHistory
    | Some pipelines =>
        let! in_development := lift (check_development_status pipelines) in
        if in_development then ret InDevelopment
        else
          let! found :=
            get_recent_scheduled_pipeline (RepositorySlug service) pipelines in
          match found with
          | None => ret NoRecentBuild
          | Some p =>
              if bool_decide (state_result p = Some "FAILED")
              then ret BuildFailed else ret BuildSucceeded
          end
    end.

Fixpoint visits (override : option (list string)) (services : list service)
    : M W (list outcome) :=
  match services with
  | [] => ret []
  | service :: rest =>
      let! o := visit override service in
      let! os := visits override rest in
      ret (o :: os)
  end.

End Visits.

(** ** A scripted world and a literal pattern matcher, to run the code on *)

Module Sim.

(** The clock advances by [tick] at every reading; the pipeline listing
    answers with the next scripted reply, whatever the repository. *)
Record world : Type := World {
  now : Z;
  tick : Z;
  branch_replies : string -> branches_response;
  pipeline_replies : list pipelines_response;
  environ : string -> option string;
  outbox : list (string * slack_payload);
}.

Definition sim_now (w : world) : Z * world :=
  (now w,
   World (now w + tick w) (tick w) (branch_replies w) (pipeline_replies w)
     (environ w) (outbox w)).

Definition sim_pipelines (repo_slug : string) (w : world)
    : pipelines_response * world :=
  match pipeline_replies w with
  | [] => (PipelinesNotJson "", w)
  | r :: rest =>
      (r, World (now w) (tick w) (branch_replies w) rest (environ w) (outbox w))
  end.

Definition sim_post (url : string) (payload : slack_payload) (w : world)
    : world :=
  World (now w) (tick w) (branch_replies w) (pipeline_replies w) (environ w)
    (outbox w ++ [(url, payload)]).

#[global] Instance sim_collaborators : Collaborators world := {|
  datetime_now := sim_now;
  http_get_branches := fun repo_slug w => (branch_replies w repo_slug, w);
  http_get_pipelines := sim_pipelines;
  environ_get := fun name w => environ w name;
  requests_post := sim_post;
|}.

(** [occurs lit s]: [lit] is a substring of [s]. *)
Fixpoint occurs (lit s : string) : bool :=
  String.prefix lit s
  || match s with
     | EmptyString => false
     | String _ rest => occurs lit rest
     end.

Definition metachar (c : Ascii.ascii) : bool :=
  bool_decide (c ∈ String.list_ascii_of_string ".^$*+?{}[]\|()").

(** The fragment of [re] made of patterns [lit] and [^lit] for a literal
    [lit] free of metacharacters; other patterns are left out of the
    fragment and rejected. *)
Definition literal_compile (pattern : string) : option (bool * string) :=
  let '(anchored, lit) :=
    match pattern with
    | String "^"%char rest => (true, rest)
    | _ => (false, pattern)
    end in
  if forallb (fun c => negb (metachar c)) (String.list_ascii_of_string lit)
  then Some (anchored, lit) else None.

Definition literal_search (r : bool * string) (s : string) : bool :=
  if fst r then String.prefix (snd r) s else occurs (snd r) s.

#[global] Instance literal_regex : RegexLib := {|
  regex := bool * string;
  re_compile := literal_compile;
  re_search := literal_search;
|}.

Definition week : Z := recent.

(** A world at time [t] with a frozen clock, in which every repository has
    default branch ["main"], the pipeline listing gives [replies] in turn
    and the webhook is configured. *)
Definition at_time (t : Z) (replies : list pipelines_response) : world :=
  World t 0 (fun _ => BranchesValues ["main"]) replies
    (fun name =>
       if String.eqb name "SLACK_WEBHOOK_URL" then Some "https://hooks" else None)
    [].

(** Sample records: runs created at time [0], read one week or three weeks
    later. *)
Definition scheduled_run (branch : string) (result : option string)
    : pipeline :=
  Pipeline 0 "SCHEDULE" branch result.

Definition pushed_run : pipeline := Pipeline 0 "PUSH" "main" None.

Definition legacy_api : service :=
  Service "legacy-api" "https://bitbucket.org/acme/legacy-api".

Definition my_legacy_api : service :=
  Service "my-legacy-api" "https://bitbucket.org/acme/my-legacy-api".

Definition billing : service :=
  Service "billing" "https://bitbucket.org/acme/billing".

(** A catalog of one team with three services and the replies of the
    pipeline listing to the three requests: a failed scheduled run, a
    scheduled run still in progress, a push. *)
Definition catalog : dict (list service) :=
  [("core", [legacy_api; my_legacy_api; billing])].

Definition replies : list pipelines_response :=
  [PipelinesValues (Some [scheduled_run "main" (Some "FAILED")]);
   PipelinesValues (Some [scheduled_run "main" None]);
   PipelinesValues (Some [pushed_run])].

(** A catalog that lists one repository twice, and a pipeline listing whose
    scheduled run is in progress at the first request and has failed by the
    second. *)
Definition twice_listed : dict (list service) := [("core", [billing; billing])].

Definition finishing : list pipelines_response :=
  [PipelinesValues (Some [scheduled_run "main" None]);
   PipelinesValues (Some [scheduled_run "main" (Some "FAILED")])].

(** A ledger with a failure for one team and none for the other. *)
Definition ledger : dict team_builds :=
  [("core", {| Succeeded := [my_legacy_api]; Failed := [legacy_api] |});
   ("web", {| Succeeded := [billing]; Failed := [] |})].

End Sim.

(** ** The service catalog *)

(** A service definition of the catalog; only what the code reads: the team
    and the URLs of the links of its schema. *)
Record service_definition : Type := ServiceDefinition {
  schema_team : string;
  schema_links : list string;
}.

(** One page of the listing: a response with ["errors"], or its ["data"]. *)
Inductive catalog_page : Type :=
  | CatalogErrors (errors : list string)
  | CatalogData (data : list service_definition).

Class Catalog (W : Type) : Type := {
  (** [ServiceDefinitionApi.list_service_definitions(page_number=page)] *)
  list_service_definitions : nat -> W -> catalog_page * W;
}.

(** [s.split(sep)] for a one-character separator *)
Fixpoint py_split (sep : ascii) (s : string) : list string :=
  match s with
  | EmptyString => [EmptyString]
  | String c rest =>
      let parts := py_split sep rest in
      if Ascii.eqb c sep then EmptyString :: parts
      else
        match parts with
        | [] => [String c EmptyString]
        | part :: parts => String c part :: parts
        end
  end.

(** The body of [for service in response['data']], on the dictionary
    [teams]. *)
Definition add_service (definition : service_definition)
    (teams : dict (list service)) : exn (dict (list service)) :=
  match last (schema_links definition) with
  | None => Raise IndexError
  | Some url =>
      let url_components := py_split "/" url in
      let team := schema_team definition in
      let teams :=
        match dict_get team teams with
        | None => dict_set team [] teams
        | Some _ => teams
        end in
      match url_components !! 4%nat with
      | None => Raise IndexError
      | Some slug =>
          if negb (String.eqb slug "workspace") then
            Ok (dict_set team
                  (default [] (dict_get team teams) ++ [Service slug url])%list
                  teams)
          else Ok teams
      end
  end.

Fixpoint add_services (data : list service_definition)
    (teams : dict (list service)) : exn (dict (list service)) :=
  match data with
  | [] => Ok teams
  | definition :: rest =>
      match add_service definition teams with
      | Ok teams => add_services rest teams
      | Raise e => Raise e
      end
  end.

Section CatalogCrawl.
Context {W : Type} {HK : Catalog W}.

(** The [while True] loop of [get_active_services], run for at most [fuel]
    pages: [None] when the pages have not run out by then. *)
Fixpoint get_active_services_loop (fuel page : nat)
    (teams : dict (list service)) (w : W)
    : option (exn (dict (list service))) * W :=
  match fuel with
  | 0 => (None, w)
  | S fuel =>
      let '(response, w1) := list_service_definitions page w in
      match response with
      | CatalogErrors [] => (Some (Raise IndexError), w1)
      | CatalogErrors (_ :: _) => (Some (Ok teams), w1)
      | CatalogData data =>
          match add_services data teams with
          | Raise e => (Some (Raise e), w1)
          | Ok teams =>
              match data with
              | [] => (Some (Ok teams), w1)
              | _ :: _ => get_active_services_loop fuel (S page) teams w1
              end
          end
      end
  end.

Definition get_active_services (fuel : nat) (w : W)
    : option (exn (dict (list service))) * W :=
  get_active_services_loop fuel 0 [] w.

End CatalogCrawl.

(** The world after the listing has been asked for [n] pages in a row, from
    page [page] on. *)
Fixpoint crawl_requests {W : Type} {HK : Catalog W} (page n : nat) (w : W) : W :=
  match n with
  | 0 => w
  | S n => crawl_requests (S page) n (snd (list_service_definitions page w))
  end.

(** Occurrences of a character in a string. *)
Fixpoint count_char (c : ascii) (s : string) : nat :=
  match s with
  | EmptyString => 0
  | String c' rest => (if Ascii.eqb c' c then 1 else 0) + count_char c rest
  end.

(** A catalog of two pages, then an empty one, whatever the state. *)
Module SimCatalog.

Definition page0 : list service_definition :=
  [ServiceDefinition "core"
     ["https://docs.example.org/a/b/c/d";
      "https://bitbucket.org/acme/billing"];
   ServiceDefinition "web" ["https://bitbucket.org/acme/workspace/projects/WEB"]].

Definition page1 : list service_definition :=
  [ServiceDefinition "core" ["https://bitbucket.org/acme/legacy-api/src/main"]].

Definition pages (page : nat) : catalog_page :=
  match page with
  | 0 => CatalogData page0
  | 1 => CatalogData page1
  | _ => CatalogData []
  end.

Definition page_data (page : nat) : list service_definition :=
  match page with
  | 0 => page0
  | 1 => page1
  | _ => []
  end.

#[global] Instance sim_catalog : Catalog unit := {|
  list_service_definitions := fun page w => (pages page, w);
|}.

End SimCatalog.

(** ** Vocabulary of the further properties *)

(** A team passes the allow-list [teams] when there is none or it is on it. *)
Definition selected (teams : option (list string)) (team : string) : bool :=
  negb (truthy teams) || bool_decide (team ∈ list_of teams).

(** A team of the ledger has a failed build. *)
Definition has_failed (teams_recent_builds : dict team_builds) (team : string)
    : bool :=
  match dict_get team teams_recent_builds with
  | Some builds => negb (Nat.eqb (length (Failed builds)) 0)
  | None => false
  end.

(** The entries the crawl stores: the slug is the fifth piece of the URL cut
    at its slashes, and it is not ["workspace"]. *)
Definition entry_ok (s : service) : Prop :=
  py_split "/" (RepositoryUrl s) !! 4%nat = Some (RepositorySlug s)
  ∧ RepositorySlug s ≠ "workspace".

Definition entries_ok (teams : dict (list service)) : Prop :=
  NoDup (dict_keys teams)
  ∧ ∀ team services s,
      dict_get team teams = Some services → s ∈ services → entry_ok s.

(** A pattern of the ignore list that compiles and is not found in [s]. *)
Definition misses {HR : RegexLib} (s : string) (pattern : string) : Prop :=
  ∃ r, re_compile pattern = Some r ∧ re_search r s = false.

(** * Properties *)

(** ** The classifier *)

Section ClassifierProps.
Context {W : Type} {HC : Collaborators W}.

Lemma within_window_fresh p rest w :
  ¬ stale p w →
  within_window (p :: rest) w = p :: within_window rest (snd (datetime_now w)).
Proof.
  unfold stale. intros Hp. simpl.
  destruct (datetime_now w) as [today w1]; simpl in *.
  destruct (Z.leb_spec (today - created_on p) recent); [done | lia].
Qed.

Lemma within_window_stale p rest w :
  stale p w → within_window (p :: rest) w = [].
Proof.
  unfold stale. intros Hp. simpl.
  destruct (datetime_now w) as [today w1]; simpl in *.
  destruct (Z.leb_spec (today - created_on p) recent); [lia | done].
Qed.

Lemma within_window_prefix ps w : within_window ps w `prefix_of` ps.
Proof.
  revert w. induction ps as [|p ps IH]; intros w; simpl; [done|].
  destruct (datetime_now w) as [today w1].
  destruct (today - created_on p <=? recent)%Z.
  - by apply prefix_cons.
  - apply prefix_nil.
Qed.

Lemma check_development_status_loop_spec n ps w :
  fst (check_development_status_loop n ps w) = true ↔
  within_window ps w ≠ [] ∧
  ((∃ p, p ∈ within_window ps w ∧ trigger_name p ≠ "SCHEDULE")
   ∨ (2 ≤ n + length (within_window ps w))%nat).
Proof.
  revert n w. induction ps as [|p ps IH]; intros n w; simpl.
  { split; [done | by intros [? _]]. }
  destruct (datetime_now w) as [today w1].
  destruct (today - created_on p <=? recent)%Z; simpl;
    [| split; [done | by intros [? _]]].
  destruct (String.eqb_spec (trigger_name p) "SCHEDULE") as [Hs|Hs]; simpl.
  - destruct (Nat.ltb_spec 1 (S n)) as [Hn|Hn]; simpl.
    + split; [intros _ | done]. split; [done|]. right. lia.
    + rewrite IH. assert (n = 0) as -> by lia. split.
      * intros [Hne [(q & Hq & Hqs)|Hlen]]; (split; [done|]).
        -- left. exists q. split; [by apply elem_of_cons; right | done].
        -- right. lia.
      * intros [_ [(q & Hq & Hqs)|Hlen]].
        -- apply elem_of_cons in Hq as [->|Hq]; [done|].
           split; [by intros E; rewrite E in Hq; inversion Hq|].
           left. by exists q.
        -- split; [intros E; rewrite E in Hlen; simpl in Hlen; lia|].
           right. simpl in Hlen. lia.
  - split; [intros _ | done]. split; [done|]. left. exists p.
    split; [apply elem_of_cons; by left | done].
Qed.

Lemma get_recent_scheduled_pipeline_loop_find branch ps w :
  fst (get_recent_scheduled_pipeline_loop branch ps w)
  = List.find (scheduled_on branch) (within_window ps w).
Proof.
  revert w. induction ps as [|p ps IH]; intros w; simpl; [done|].
  destruct (datetime_now w) as [today w1].
  destruct (today - created_on p <=? recent)%Z; simpl; [|done].
  unfold scheduled_on at 1.
  destruct (String.eqb (trigger_name p) "SCHEDULE"
            && py_eq_branch (target_pattern p) branch); simpl; [done|].
  apply IH.
Qed.

Lemma scheduled_on_spec branch p :
  scheduled_on branch p = true ↔
  trigger_name p = "SCHEDULE" ∧ branch = Some (target_pattern p).
Proof.
  unfold scheduled_on, py_eq_branch.
  rewrite andb_true_iff, String.eqb_eq.
  destruct branch as [b|].
  - rewrite String.eqb_eq. split; intros [? E]; (split; [done|]); congruence.
  - split; intros [? E]; done.
Qed.

Lemma find_first {A} (f : A → bool) (l : list A) x :
  List.find f l = Some x →
  ∃ before after,
    l = (before ++ x :: after)%list ∧ Forall (λ y, f y = false) before ∧ f x = true.
Proof.
  induction l as [|a l IH]; simpl; [done|].
  destruct (f a) eqn:Ha.
  - intros [= ->]. by exists [], l.
  - intros Hx. destruct (IH Hx) as (before & after & -> & Hb & Hfx).
    exists (a :: before), after. split; [done|]. split; [by constructor | done].
Qed.

Lemma find_none {A} (f : A → bool) (l : list A) :
  List.find f l = None ↔ ∀ x, x ∈ l → f x = false.
Proof.
  induction l as [|a l IH]; simpl.
  - split; [by intros _ x Hx; inversion Hx | done].
  - destruct (f a) eqn:Ha.
    + split; [done|]. intros Hall.
      rewrite Hall in Ha; [done | apply elem_of_cons; by left].
    + rewrite IH. split.
      * intros Hall x Hx. apply elem_of_cons in Hx as [->|Hx]; auto.
      * intros Hall x Hx. apply Hall, elem_of_cons. by right.
Qed.

(** The scans stop at the first stale record: what follows it is never
    read, nor is the clock read again. *)
Lemma check_development_status_loop_cut n before p rest rest' w :
  within_window (before ++ p :: rest)%list w = before →
  check_development_status_loop n (before ++ p :: rest)%list w
  = check_development_status_loop n (before ++ p :: rest')%list w.
Proof.
  revert n w. induction before as [|q before IH]; intros n w; simpl.
  - destruct (datetime_now w) as [today w1].
    by destruct (today - created_on p <=? recent)%Z.
  - destruct (datetime_now w) as [today w1].
    destruct (today - created_on q <=? recent)%Z; [|done].
    intros [= Hw].
    destruct (negb (String.eqb (trigger_name q) "SCHEDULE") || Nat.ltb 1 (S n));
      [done | by apply IH].
Qed.

Lemma get_recent_scheduled_pipeline_loop_cut branch before p rest rest' w :
  within_window (before ++ p :: rest)%list w = before →
  get_recent_scheduled_pipeline_loop branch (before ++ p :: rest)%list w
  = get_recent_scheduled_pipeline_loop branch (before ++ p :: rest')%list w.
Proof.
  revert w. induction before as [|q before IH]; intros w; simpl.
  - destruct (datetime_now w) as [today w1].
    by destruct (today - created_on p <=? recent)%Z.
  - destruct (datetime_now w) as [today w1].
    destruct (today - created_on q <=? recent)%Z; [|done].
    intros [= Hw].
    destruct (String.eqb (trigger_name q) "SCHEDULE"
              && py_eq_branch (target_pattern q) branch);
      [done | by apply IH].
Qed.

End ClassifierProps.

Section ClassifierClaims.
Context {W : Type} {HC : Collaborators W}.

Lemma check_development_status_iff (pipelines : list pipeline) (w : W) :
  fst (check_development_status pipelines w) = true ↔
  (∃ p, p ∈ within_window pipelines w ∧ trigger_name p ≠ "SCHEDULE")
  ∨ (2 ≤ length (within_window pipelines w))%nat.
Proof.
  unfold check_development_status.
  rewrite check_development_status_loop_spec. simpl. split.
  - by intros [_ Hw].
  - intros Hw. split; [|done].
    destruct Hw as [(p & Hp & _)|Hlen]; intros E; rewrite E in *.
    + inversion Hp.
    + simpl in Hlen. lia.
Qed.

(** C1. [check_development_status] answers [True] exactly when the scan,
    which runs from the newest record to the first one older than a week,
    meets a record within the window whose trigger is not ["SCHEDULE"], or
    meets a second record within the window; otherwise, the window or the
    list being exhausted, it answers [False]. *)
Theorem check_development_status_window (pipelines : list pipeline) (w : W) :
  (fst (check_development_status pipelines w) = true ↔
   (∃ p, p ∈ within_window pipelines w ∧ trigger_name p ≠ "SCHEDULE")
   ∨ (2 ≤ length (within_window pipelines w))%nat)
  ∧ (fst (check_development_status pipelines w) = false ↔
     (∀ p, p ∈ within_window pipelines w → trigger_name p = "SCHEDULE")
     ∧ (length (within_window pipelines w) ≤ 1)%nat).
Proof.
  pose proof (check_development_status_iff pipelines w) as Hiff.
  split; [exact Hiff|].
  destruct (fst (check_development_status pipelines w)).
  - split; [done|]. intros [Hall Hlen].
    destruct (proj1 Hiff eq_refl) as [(p & Hp & Hs)|Hlen2]; [|lia].
    by specialize (Hall p Hp).
  - split; [|done]. intros _. split.
    + intros p Hp. destruct (String.eqb_spec (trigger_name p) "SCHEDULE"); [done|].
      assert (false = true); [|done]. apply Hiff. left. by exists p.
    + destruct (decide (length (within_window pipelines w) ≤ 1)%nat); [done|].
      assert (false = true); [|done]. apply Hiff. right. lia.
Qed.

(** C2, amended. When the newest record has a trigger other than
    ["SCHEDULE"] and is no older than a week when the scan reads the clock,
    [check_development_status] answers [True], whatever the older records
    are. *)
Theorem check_development_status_newest_unscheduled
    (p : pipeline) (rest : list pipeline) (w : W) :
  trigger_name p ≠ "SCHEDULE" →
  ¬ stale p w →
  fst (check_development_status (p :: rest) w) = true.
Proof.
  intros Hp Hfresh. apply check_development_status_iff. left.
  exists p. split; [|done].
  rewrite within_window_fresh by done. apply elem_of_cons. by left.
Qed.

(** C4. Once the default branch is known, [get_recent_scheduled_pipeline]
    returns the first record of the scanned window that is scheduled and
    targets that branch, and [None] when the window holds no such record; a
    record it returns never targets another branch. *)
Theorem get_recent_scheduled_pipeline_first (repo_slug : string)
    (pipelines : list pipeline) (branch : option string) (w w1 : W) :
  get_default_branch repo_slug w = (Ok branch, w1) →
  ∃ found,
    fst (get_recent_scheduled_pipeline repo_slug pipelines w) = Ok found ∧
    found = List.find (scheduled_on branch) (within_window pipelines w1) ∧
    (∀ p, found = Some p →
       trigger_name p = "SCHEDULE" ∧ branch = Some (target_pattern p) ∧
       ∃ before after,
         within_window pipelines w1 = (before ++ p :: after)%list ∧
         Forall (λ q, ¬ (trigger_name q = "SCHEDULE"
                         ∧ branch = Some (target_pattern q))) before) ∧
    (found = None ↔
       ∀ p, p ∈ within_window pipelines w1 →
            ¬ (trigger_name p = "SCHEDULE" ∧ branch = Some (target_pattern p))).
Proof.
  intros Hb.
  exists (List.find (scheduled_on branch) (within_window pipelines w1)).
  split; [|split; [done|split]].
  - unfold get_recent_scheduled_pipeline, bind, lift. rewrite Hb.
    pose proof (get_recent_scheduled_pipeline_loop_find branch pipelines w1) as E.
    destruct (get_recent_scheduled_pipeline_loop branch pipelines w1) as [r w2].
    simpl in *. by rewrite E.
  - intros p Hp. apply find_first in Hp as (before & after & E & Hbefore & Hp).
    apply scheduled_on_spec in Hp as [Hs Hbr]. split; [done|]. split; [done|].
    exists before, after. split; [done|].
    eapply Forall_impl; [exact Hbefore|]. intros q Hq Hq'.
    apply scheduled_on_spec in Hq'. congruence.
  - rewrite find_none. split; intros Hall p Hp.
    + rewrite <- scheduled_on_spec. rewrite (Hall p Hp). done.
    + specialize (Hall p Hp). rewrite <- scheduled_on_spec in Hall.
      by destruct (scheduled_on branch p).
Qed.

(** C5. A record older than a week ends the scan and nothing from it on is
    read: a history made of one such record gives [False] and [None]; the
    answers of both functions, and the clock readings they make, are the
    same whatever follows the first record older than a week; and both
    answers depend on the history through the scanned window only. *)
Theorem stale_records_have_no_influence :
  (∀ (p : pipeline) (w : W),
     stale p w → fst (check_development_status [p] w) = false) ∧
  (∀ (repo_slug : string) (p : pipeline) (branch : option string) (w w1 : W),
     get_default_branch repo_slug w = (Ok branch, w1) →
     stale p w1 →
     fst (get_recent_scheduled_pipeline repo_slug [p] w) = Ok None) ∧
  (∀ (before : list pipeline) (p : pipeline) (rest rest' : list pipeline) (w : W),
     within_window (before ++ p :: rest)%list w = before →
     check_development_status (before ++ p :: rest)%list w
     = check_development_status (before ++ p :: rest')%list w) ∧
  (∀ (repo_slug : string) (before : list pipeline) (p : pipeline)
     (rest rest' : list pipeline) (branch : option string) (w w1 : W),
     get_default_branch repo_slug w = (Ok branch, w1) →
     within_window (before ++ p :: rest)%list w1 = before →
     get_recent_scheduled_pipeline repo_slug (before ++ p :: rest)%list w
     = get_recent_scheduled_pipeline repo_slug (before ++ p :: rest')%list w) ∧
  (∀ (pipelines pipelines' : list pipeline) (w : W),
     within_window pipelines w = within_window pipelines' w →
     fst (check_development_status pipelines w)
     = fst (check_development_status pipelines' w)) ∧
  (∀ (branch : option string) (pipelines pipelines' : list pipeline) (w : W),
     within_window pipelines w = within_window pipelines' w →
     fst (get_recent_scheduled_pipeline_loop branch pipelines w)
     = fst (get_recent_scheduled_pipeline_loop branch pipelines' w)).
Proof.
  repeat split.
  - intros p w Hp.
    destruct (fst (check_development_status [p] w)) eqn:E; [|done].
    apply check_development_status_iff in E.
    rewrite within_window_stale in E by done.
    destruct E as [(q & Hq & _)|Hlen]; [inversion Hq | simpl in Hlen; lia].
  - intros repo_slug p branch w w1 Hb Hp.
    unfold get_recent_scheduled_pipeline, bind, lift. rewrite Hb.
    pose proof (get_recent_scheduled_pipeline_loop_find branch [p] w1) as E.
    rewrite within_window_stale in E by done.
    destruct (get_recent_scheduled_pipeline_loop branch [p] w1) as [r w2].
    simpl in *. by rewrite E.
  - intros before p rest rest' w Hw.
    by apply check_development_status_loop_cut.
  - intros repo_slug before p rest rest' branch w w1 Hb Hw.
    unfold get_recent_scheduled_pipeline, bind, lift. rewrite Hb.
    by rewrite (get_recent_scheduled_pipeline_loop_cut branch before p rest rest').
  - intros pipelines pipelines' w Hw.
    destruct (fst (check_development_status pipelines w)) eqn:E.
    + symmetry. apply check_development_status_iff.
      rewrite <- Hw. by apply check_development_status_iff.
    + destruct (fst (check_development_status pipelines' w)) eqn:E'; [|done].
      apply check_development_status_iff in E'. rewrite <- Hw in E'.
      apply check_development_status_iff in E'. congruence.
  - intros branch pipelines pipelines' w Hw.
    by rewrite !get_recent_scheduled_pipeline_loop_find, Hw.
Qed.

End ClassifierClaims.

(** ** Dictionaries *)

Lemma dict_get_set {V} (k k' : string) (v : V) (d : dict V) :
  dict_get k (dict_set k' v d) = if String.eqb k k' then Some v else dict_get k d.
Proof.
  induction d as [|[k0 v0] d IH]; simpl.
  - by destruct (String.eqb k k').
  - destruct (String.eqb_spec k' k0) as [->|Hk0]; simpl.
    + by destruct (String.eqb k k0).
    + destruct (String.eqb_spec k k0) as [->|Hk].
      * by destruct (String.eqb_spec k0 k').
      * apply IH.
Qed.

Lemma dict_get_keys {V} (k : string) (d : dict V) :
  k ∈ dict_keys d ↔ is_Some (dict_get k d).
Proof.
  unfold dict_keys. induction d as [|[k0 v0] d IH]; simpl.
  - split; [intros Hk; inversion Hk | by intros [? ?]].
  - rewrite elem_of_cons, IH.
    destruct (String.eqb_spec k k0) as [->|Hk]; [by split; eauto|].
    split; [by intros [?|?] | by right].
Qed.

(** ** The ledger builder *)

Section SelectProps.

Lemma elem_of_select o s services outcomes :
  s ∈ select o services outcomes ↔ (s, o) ∈ zip services outcomes.
Proof.
  unfold select. rewrite list_elem_of_fmap. split.
  - intros ([s' o'] & -> & Hin). apply list_elem_of_filter in Hin as [E Hin].
    simpl in E. by subst.
  - intros Hin. exists (s, o). split; [done|]. by apply list_elem_of_filter.
Qed.

Lemma select_cons o s services o' outcomes :
  select o (s :: services) (o' :: outcomes)
  = if decide (o' = o) then s :: select o services outcomes
    else select o services outcomes.
Proof.
  unfold select. simpl. rewrite filter_cons. simpl. by destruct (decide (o' = o)).
Qed.

Lemma zip_elem_of_l (s : service) (o : outcome) services outcomes :
  (s, o) ∈ zip services outcomes → s ∈ services.
Proof.
  revert outcomes. induction services as [|s' services IH];
    intros [|o' outcomes]; simpl; try (intros Hin; by inversion Hin).
  rewrite !elem_of_cons. intros [E|Hin]; [left; congruence|]. right. eauto.
Qed.

Lemma zip_functional (s : service) (o1 o2 : outcome) services outcomes :
  NoDup services →
  (s, o1) ∈ zip services outcomes → (s, o2) ∈ zip services outcomes → o1 = o2.
Proof.
  intros Hnd. revert outcomes. induction Hnd as [|s' services Hs' Hnd IH];
    intros [|o' outcomes]; simpl; try (intros Hin; by inversion Hin).
  rewrite !elem_of_cons.
  intros [E1|H1] [E2|H2].
  - congruence.
  - injection E1 as -> ->. by apply zip_elem_of_l in H2.
  - injection E2 as -> ->. by apply zip_elem_of_l in H1.
  - eauto.
Qed.

Lemma select_NoDup o services outcomes :
  NoDup services → NoDup (select o services outcomes).
Proof.
  intros Hnd. revert outcomes. induction Hnd as [|s services Hs Hnd IH];
    intros [|o' outcomes]; try (unfold select; simpl; by constructor).
  rewrite select_cons. destruct (decide (o' = o)); [|by apply IH].
  constructor; [|by apply IH].
  rewrite elem_of_select. intros Hin. by apply zip_elem_of_l in Hin.
Qed.

End SelectProps.

Section LedgerProps.
Context {W : Type} {HC : Collaborators W} {HR : RegexLib}.

Lemma failed_test (p : pipeline) :
  match state_result p with
  | Some name => String.eqb name "FAILED"
  | None => false
  end = bool_decide (state_result p = Some "FAILED").
Proof.
  destruct (state_result p) as [name|]; [|done].
  destruct (String.eqb_spec name "FAILED") as [->|Hn].
  - by rewrite bool_decide_eq_true_2.
  - rewrite bool_decide_eq_false_2; [done | congruence].
Qed.

(** A truthy [override] makes the call of [match_override] raise: the whole
    service entry is searched, not its slug. *)
Lemma overridden_raises (override : option (list string)) (s : service) :
  truthy override = true →
  overridden override s = Raise TypeError ∨ overridden override s = Raise ReError.
Proof.
  unfold overridden. intros Ht.
  destruct override as [[|pat rest]|]; simpl in *; try done.
  destruct (re_compile pat); auto.
Qed.

Lemma overridden_false (override : option (list string)) (s : service) :
  overridden override s = Ok false ↔ truthy override = false.
Proof.
  split.
  - intros E. destruct (truthy override) eqn:Ht; [|done].
    destruct (overridden_raises override s Ht); congruence.
  - unfold overridden. by intros ->.
Qed.

(** One iteration of the service loop records the outcome of its visit. *)
Lemma process_service_visit override (s : service) builds (w : W) :
  process_service override s builds w
  = match visit override s w with
    | (Ok o, w1) => (Ok (record_outcome o s builds), w1)
    | (Raise e, w1) => (Raise e, w1)
    end.
Proof.
  unfold process_service, visit, bind, lift, ret.
  destruct (overridden override s) as [[|]|e]; try done.
  destruct (get_latest_pipelines (RepositorySlug s) w) as [[[|p ps]|] w1];
    try done.
  destruct (check_development_status (p :: ps) w1) as [[|] w2]; try done.
  destruct (get_recent_scheduled_pipeline (RepositorySlug s) (p :: ps) w2)
    as [[[found|]|e] w3]; try done.
  unfold record_build. rewrite failed_test.
  by destruct (bool_decide (state_result found = Some "FAILED")).
Qed.

Lemma process_team_services_visits override services builds (w : W) :
  process_team_services override services builds w
  = match visits override services w with
    | (Ok outcomes, w1) =>
        (Ok {| Succeeded :=
                 Succeeded builds ++ select BuildSucceeded services outcomes;
               Failed := Failed builds ++ select BuildFailed services outcomes |},
         w1)
    | (Raise e, w1) => (Raise e, w1)
    end.
Proof.
  revert builds w. induction services as [|s services IH]; intros builds w.
  - simpl. unfold ret, select. simpl. rewrite !app_nil_r. by destruct builds.
  - simpl. unfold bind. rewrite process_service_visit.
    destruct (visit override s w) as [[o|e] w1]; [|done].
    rewrite IH. unfold ret.
    destruct (visits override services w1) as [[outcomes|e] w2]; [|done].
    rewrite !select_cons.
    destruct o; simpl; try done; by rewrite <- !app_assoc.
Qed.

Lemma visits_length override services outcomes (w w1 : W) :
  visits override services w = (Ok outcomes, w1) →
  length outcomes = length services.
Proof.
  revert outcomes w w1. induction services as [|s services IH];
    intros outcomes w w1; simpl.
  - unfold ret. by intros [= <- _].
  - unfold bind, ret. destruct (visit override s w) as [[o|e] w2]; [|done].
    destruct (visits override services w2) as [[os|e] w3] eqn:E; [|done].
    intros [= <- _]. simpl. f_equal. eauto.
Qed.

(** Every entry of the result was computed by the service loop on the
    services of its team, unless it was in the accumulator already. *)
Lemma process_teams_origin teams override teams_services keys acc (w w' : W)
    result :
  process_teams teams override teams_services keys acc w = (Ok result, w') →
  ∀ team builds,
    dict_get team result = Some builds →
    dict_get team acc = Some builds
    ∨ ∃ services w0 w1,
        dict_get team teams_services = Some services ∧
        process_team_services override services
          {| Succeeded := []; Failed := [] |} w0 = (Ok builds, w1).
Proof.
  revert acc w. induction keys as [|k keys IH]; intros acc w; simpl.
  - unfold ret. intros [= <- _] team builds Hget. by left.
  - destruct (truthy teams && negb (bool_decide (k ∈ list_of teams))).
    { apply IH. }
    destruct (dict_get k teams_services) as [services|] eqn:Hk; [|done].
    unfold bind at 1.
    destruct (process_team_services override services _ w) as [[b|e] w1] eqn:Hb;
      [|done].
    intros Hrest team builds Hget.
    destruct (IH _ _ Hrest team builds Hget) as [Hacc|Hnew]; [|by right].
    rewrite !dict_get_set in Hacc.
    destruct (String.eqb_spec team k) as [->|Hne]; [|by left].
    injection Hacc as <-. right. by exists services, w, w1.
Qed.

(** One visit that finds the recent scheduled build of its service returns
    the entry with the service appended to [Failed] when the build has the
    result ["FAILED"], and to [Succeeded] otherwise. *)
Lemma process_service_records_result (override : option (list string))
    (s : service) (builds : team_builds) (pipelines : list pipeline)
    (p : pipeline) (w w1 w2 w3 : W) :
  overridden override s = Ok false →
  get_latest_pipelines (RepositorySlug s) w = (Some pipelines, w1) →
  pipelines ≠ [] →
  check_development_status pipelines w1 = (false, w2) →
  get_recent_scheduled_pipeline (RepositorySlug s) pipelines w2
    = (Ok (Some p), w3) →
  ∃ builds',
    process_service override s builds w = (Ok builds', w3) ∧
    (state_result p = Some "FAILED" →
       builds' = {| Succeeded := Succeeded builds;
                    Failed := Failed builds ++ [s] |}) ∧
    (state_result p ≠ Some "FAILED" →
       builds' = {| Succeeded := Succeeded builds ++ [s];
                    Failed := Failed builds |}).
Proof.
  intros Ho Hp Hne Hd Hf. exists (record_build s p builds). split.
  - unfold process_service, bind, lift, ret. rewrite Ho, Hp.
    destruct pipelines as [|q qs]; [done|]. by rewrite Hd, Hf.
  - unfold record_build. rewrite failed_test. split; intros E.
    + by rewrite bool_decide_eq_true_2.
    + by rewrite bool_decide_eq_false_2.
Qed.

(** C10, amended. In a ledger the builder returns, the two lists of a team
    partition the visits of the team's services by their outcome: a visit
    that found a failed build put its service in [Failed] only, one that
    found any other recent scheduled build put it in [Succeeded] only, and a
    visit that skipped the service put it in neither. When the services of
    the team are distinct, no service occurs twice in the two lists taken
    together, so that the lists are disjoint, and a skipped service occurs in
    neither. *)
Theorem ledger_lists_disjoint (teams override : option (list string))
    (teams_services : dict (list service)) (w w' : W)
    (teams_recent_builds : dict team_builds) :
  process_services_builds teams override teams_services w
    = (Ok teams_recent_builds, w') →
  ∀ team builds,
    dict_get team teams_recent_builds = Some builds →
    ∃ services outcomes w0 w1,
      dict_get team teams_services = Some services ∧
      visits override services w0 = (Ok outcomes, w1) ∧
      length outcomes = length services ∧
      Succeeded builds = select BuildSucceeded services outcomes ∧
      Failed builds = select BuildFailed services outcomes ∧
      (NoDup services →
         NoDup (Succeeded builds ++ Failed builds) ∧
         ∀ s o, (s, o) ∈ zip services outcomes → skipped o = true →
                (s ∉ Succeeded builds) ∧ (s ∉ Failed builds)).
Proof.
  unfold process_services_builds. intros Hrun team builds Hget.
  destruct (process_teams_origin _ _ _ _ _ _ _ _ Hrun team builds Hget)
    as [Hnil|(services & w0 & w1 & Hservices & Hloop)]; [done|].
  rewrite process_team_services_visits in Hloop.
  destruct (visits override services w0) as [[outcomes|e] w2] eqn:Hv; [|done].
  injection Hloop as <- <-. simpl.
  exists services, outcomes, w0, w2.
  split; [done|]. split; [done|].
  split; [by eapply visits_length|]. split; [done|]. split; [done|].
  intros Hnd. split.
  - apply NoDup_app. split; [by apply select_NoDup|].
    split; [|by apply select_NoDup].
    intros s Hs Hf. apply elem_of_select in Hs, Hf.
    by pose proof (zip_functional _ _ _ _ _ Hnd Hs Hf).
  - intros s o Hso Hskip. split; intros Hin; apply elem_of_select in Hin;
      pose proof (zip_functional _ _ _ _ _ Hnd Hso Hin) as ->; done.
Qed.

End LedgerProps.

(** ** The renderers *)

Section StringFacts.

Lemma string_app_cons (x : ascii) (a b : string) :
  String x a ++ b = String x (a ++ b).
Proof. reflexivity. Qed.

Lemma string_app_assoc (a b c : string) : (a ++ b) ++ c = a ++ (b ++ c).
Proof.
  induction a as [|x a IH]; [done|]. rewrite !string_app_cons. by f_equal.
Qed.

Lemma string_app_empty_r (a : string) : a ++ "" = a.
Proof.
  induction a as [|x a IH]; [done|]. rewrite string_app_cons. by f_equal.
Qed.

Lemma string_app_length (a b : string) :
  String.length (a ++ b) = (String.length a + String.length b)%nat.
Proof.
  induction a as [|x a IH]; [done|]. rewrite string_app_cons. simpl.
  by f_equal.
Qed.

(** Two texts that are equal end alike. *)
Lemma string_app_inv_tail (a b s t : string) :
  a ++ s = b ++ t → String.length s = String.length t → s = t.
Proof.
  revert b. induction a as [|x a IH]; intros [|y b] E Hlen.
  - done.
  - change ("" ++ s) with s in E. apply (f_equal String.length) in E.
    rewrite string_app_length in E. simpl in E. lia.
  - change ("" ++ t) with t in E. apply (f_equal String.length) in E.
    rewrite string_app_length in E. simpl in E. lia.
  - rewrite !string_app_cons in E. injection E as _ E. eauto.
Qed.

End StringFacts.

Section RendererProps.

Lemma string_concat_cons (x : string) (xs : list string) :
  String.concat "" (x :: xs) = x ++ String.concat "" xs.
Proof. destruct xs; simpl; [by rewrite string_app_empty_r | done]. Qed.

Lemma failed_lines_concat text builds :
  failed_lines text builds = text ++ String.concat "" (map link_line builds).
Proof.
  unfold failed_lines. revert text.
  induction builds as [|b builds IH]; intros text.
  - simpl. by rewrite string_app_empty_r.
  - cbn [fold_left map]. rewrite IH, string_concat_cons.
    by rewrite string_app_assoc.
Qed.

Lemma concat_link_line build lines :
  build ∈ lines →
  ∃ before after,
    String.concat "" (map link_line lines) = before ++ link_line build ++ after.
Proof.
  induction lines as [|b lines IH]; [intros Hin; inversion Hin|].
  rewrite elem_of_cons. cbn [map]. rewrite string_concat_cons.
  intros [->|Hin].
  - by exists "", (String.concat "" (map link_line lines)).
  - destruct (IH Hin) as (before & after & ->).
    exists (link_line b ++ before), after. by rewrite string_app_assoc.
Qed.

Lemma success_text_cases (n : nat) :
  "*Successful Builds*" ++ nl
  ++ (if Nat.eqb n 1
      then ">*" ++ pretty n ++ " repository* had a successful build."
      else ">*" ++ pretty n ++ " repositories* had successful builds.")
  = success_text n.
Proof.
  unfold success_text. destruct (Nat.eqb_spec n 1) as [->|Hn].
  - done.
  - by destruct (decide (n = 1)).
Qed.

Lemma team_summary_blocks_shape builds :
  Failed builds ≠ [] →
  team_summary_blocks builds
  = [title; divider; success_section (length (Succeeded builds)); divider;
     section (TextObject mrkdwn
       ("*Failed Builds*" ++ nl
        ++ String.concat "" (map link_line (Failed builds))))].
Proof.
  intros Hf. unfold team_summary_blocks, success_section. simpl.
  rewrite <- success_text_cases.
  destruct (Failed builds) as [|b bs] eqn:E; [done|]. simpl negb. cbv iota.
  rewrite failed_lines_concat.
  by destruct (Nat.eqb (length (Succeeded builds)) 1).
Qed.

Lemma generate_team_summaries_loop_spec trb keys acc :
  (∀ k, k ∈ keys → is_Some (dict_get k trb)) →
  ∃ ts,
    generate_team_summaries_loop trb keys acc = Ok ts ∧
    ∀ team,
      dict_get team ts =
      match dict_get team trb with
      | Some b =>
          if bool_decide (team ∈ keys) && negb (Nat.eqb (length (Failed b)) 0)
          then Some (team_summary_blocks b)
          else dict_get team acc
      | None => dict_get team acc
      end.
Proof.
  revert acc. induction keys as [|k keys IH]; intros acc Hkeys; simpl.
  - exists acc. split; [done|]. intros team.
    by destruct (dict_get team trb).
  - destruct (Hkeys k) as [b Hb]; [apply elem_of_cons; by left|]. rewrite Hb.
    assert (∀ k', k' ∈ keys → is_Some (dict_get k' trb)) as Hkeys'.
    { intros k' Hk'. apply Hkeys, elem_of_cons. by right. }
    destruct (Nat.eqb (length (Failed b)) 0) eqn:Hlen.
    + destruct (IH acc Hkeys') as (ts & -> & Hts). exists ts. split; [done|].
      intros team. rewrite Hts.
      destruct (dict_get team trb) as [b'|] eqn:Hb'; [|done].
      destruct (decide (team = k)) as [->|Hne].
      * assert (b' = b) as -> by congruence. rewrite Hlen. simpl.
        by rewrite !andb_false_r.
      * rewrite (bool_decide_ext (team ∈ k :: keys) (team ∈ keys)); [done|].
        rewrite elem_of_cons. split; [by intros [?|?] | by right].
    + destruct (IH (dict_set k (team_summary_blocks b) acc) Hkeys')
        as (ts & -> & Hts).
      exists ts. split; [done|]. intros team. rewrite Hts, dict_get_set.
      destruct (dict_get team trb) as [b'|] eqn:Hb'.
      * destruct (String.eqb_spec team k) as [->|Hne].
        -- assert (b' = b) as -> by congruence. rewrite Hlen. simpl.
           rewrite (bool_decide_eq_true_2 (k ∈ k :: keys))
             by (apply elem_of_cons; by left).
           simpl. by destruct (bool_decide (k ∈ keys)).
        -- rewrite (bool_decide_ext (team ∈ k :: keys) (team ∈ keys)); [done|].
           rewrite elem_of_cons. split; [by intros [?|?] | by right].
      * destruct (String.eqb_spec team k) as [->|Hne]; [|done]. congruence.
Qed.

Lemma generate_overall_summary_loop_spec trb keys summary :
  (∀ k, k ∈ keys → is_Some (dict_get k trb)) →
  generate_overall_summary_loop trb keys summary
  = Ok (summary
        ++ flat_map
             (λ team,
                match dict_get team trb with
                | Some b => overall_team_blocks team b
                | None => []
                end)
             keys)%list.
Proof.
  revert summary. induction keys as [|k keys IH]; intros summary Hkeys; simpl.
  - by rewrite app_nil_r.
  - destruct (Hkeys k) as [b Hb]; [apply elem_of_cons; by left|]. rewrite Hb.
    rewrite IH; [by rewrite <- app_assoc|].
    intros k' Hk'. apply Hkeys, elem_of_cons. by right.
Qed.

End RendererProps.

Section RendererClaims.

Lemma failed_nonempty (builds : team_builds) :
  Nat.eqb (length (Failed builds)) 0 = false ↔ Failed builds ≠ [].
Proof.
  destruct (Failed builds) as [|b bs]; simpl; split; done.
Qed.

Lemma generate_team_summaries_lookup trb :
  ∃ ts,
    generate_team_summaries trb = Ok ts ∧
    ∀ team,
      dict_get team ts =
      match dict_get team trb with
      | Some b =>
          if Nat.eqb (length (Failed b)) 0 then None
          else Some (team_summary_blocks b)
      | None => None
      end.
Proof.
  unfold generate_team_summaries.
  destruct (generate_team_summaries_loop_spec trb (dict_keys trb) [])
    as (ts & Hts & Hget).
  { intros k Hk. by apply dict_get_keys. }
  exists ts. split; [done|]. intros team. rewrite Hget.
  destruct (dict_get team trb) as [b|] eqn:Hb; [|done].
  rewrite bool_decide_eq_true_2 by (apply dict_get_keys; by rewrite Hb).
  by destruct (Nat.eqb (length (Failed b)) 0).
Qed.

(** C8. [generate_team_summaries] returns an entry for a team exactly when
    the team's [Failed] list is not empty, whatever its [Succeeded] list
    holds; the entry is the header, a divider, the success count, a divider
    and the failure section, and the text of the failure section holds the
    link line of every repository of [Failed]. *)
Theorem team_summaries_for_failed_only (trb : dict team_builds) :
  ∃ ts,
    generate_team_summaries trb = Ok ts ∧
    (∀ team,
       is_Some (dict_get team ts) ↔
       ∃ builds, dict_get team trb = Some builds ∧ Failed builds ≠ []) ∧
    (∀ team builds,
       dict_get team trb = Some builds → Failed builds ≠ [] →
       ∃ failed_text,
         dict_get team ts
         = Some [title; divider; success_section (length (Succeeded builds));
                 divider; section (TextObject mrkdwn failed_text)] ∧
         failed_text
         = "*Failed Builds*" ++ nl
           ++ String.concat "" (map link_line (Failed builds)) ∧
         ∀ build, build ∈ Failed builds →
           ∃ before after,
             failed_text = before ++ link_line build ++ after).
Proof.
  destruct (generate_team_summaries_lookup trb) as (ts & Hts & Hget).
  exists ts. split; [done|]. split.
  - intros team. rewrite Hget. split.
    + destruct (dict_get team trb) as [b|]; [|by intros [? ?]].
      destruct (Nat.eqb (length (Failed b)) 0) eqn:E; [by intros [? ?]|].
      intros _. exists b. split; [done|]. by apply failed_nonempty.
    + intros (b & -> & Hb). apply failed_nonempty in Hb. rewrite Hb. by eexists.
  - intros team builds Hb Hf. eexists. split; [|split; [reflexivity|]].
    + rewrite Hget, Hb. apply failed_nonempty in Hf as Hf'. rewrite Hf'.
      by rewrite team_summary_blocks_shape.
    + intros build Hin.
      destruct (concat_link_line build (Failed builds) Hin)
        as (before & after & ->).
      exists (("*Failed Builds*" ++ nl) ++ before), after.
      by rewrite !string_app_assoc.
Qed.

Lemma success_text_plural (n : nat) :
  n ≠ 1 →
  success_text n
  = "*Successful Builds*" ++ nl ++ ">*" ++ pretty n
    ++ " repositories* had successful builds.".
Proof. unfold success_text. intros Hn. by destruct (decide (n = 1)). Qed.

(** C9. Both renderers word the success count alike: the third block of a
    team's digest, and the third block of a team's part of the overall
    digest when the team has any build to report, is the section reading
    "1 repository had a successful build" when [Succeeded] holds one
    repository and "N repositories had successful builds" for every other
    count N, 0 included; the singular wording is that of no other count. *)
Theorem success_count_phrasing :
  (∀ trb : dict team_builds,
     generate_overall_summary trb
     = Ok (title
           :: flat_map
                (λ team,
                   match dict_get team trb with
                   | Some b => overall_team_blocks team b
                   | None => []
                   end)
                (dict_keys trb))) ∧
  (∀ (trb : dict team_builds) ts team blocks,
     generate_team_summaries trb = Ok ts →
     dict_get team ts = Some blocks →
     ∃ builds, dict_get team trb = Some builds
               ∧ blocks = team_summary_blocks builds) ∧
  (∀ builds : team_builds,
     team_summary_blocks builds !! 2
     = Some (success_section (length (Succeeded builds)))) ∧
  (∀ (team : string) (builds : team_builds),
     ¬ (Succeeded builds = [] ∧ Failed builds = []) →
     overall_team_blocks team builds !! 2
     = Some (success_section (length (Succeeded builds)))) ∧
  success_text 1
  = "*Successful Builds*" ++ nl ++ ">*1 repository* had a successful build." ∧
  success_text 0
  = "*Successful Builds*" ++ nl ++ ">*0 repositories* had successful builds." ∧
  success_text 2
  = "*Successful Builds*" ++ nl ++ ">*2 repositories* had successful builds." ∧
  (∀ n : nat,
     n ≠ 1 →
     success_text n
     = "*Successful Builds*" ++ nl ++ ">*" ++ pretty n
       ++ " repositories* had successful builds."
     ∧ success_text n ≠ success_text 1).
Proof.
  split; [|split; [|split; [|split; [|split; [|split; [|split]]]]]];
    try reflexivity.
  - intros trb. unfold generate_overall_summary.
    rewrite generate_overall_summary_loop_spec; [done|].
    intros k Hk. by apply dict_get_keys.
  - intros trb ts team blocks Hts Hget.
    destruct (generate_team_summaries_lookup trb) as (ts' & Hts' & Hget').
    assert (ts' = ts) as -> by congruence.
    rewrite Hget' in Hget. destruct (dict_get team trb) as [b|]; [|done].
    exists b. split; [done|].
    destruct (Nat.eqb (length (Failed b)) 0); congruence.
  - intros builds. unfold team_summary_blocks, success_section. simpl.
    rewrite <- success_text_cases.
    by destruct (Nat.eqb (length (Succeeded builds)) 1).
  - intros team builds Hne. unfold overall_team_blocks, success_section.
    destruct (Nat.eqb (length (Succeeded builds)) 0
              && Nat.eqb (length (Failed builds)) 0) eqn:E.
    + apply andb_true_iff in E as [E1 E2]. exfalso. apply Hne.
      destruct (Succeeded builds), (Failed builds); done.
    + simpl. rewrite <- success_text_cases.
      by destruct (Nat.eqb (length (Succeeded builds)) 1).
  - intros n Hn. split; [by apply success_text_plural|].
    rewrite success_text_plural by done. intros E.
    change (success_text 1)
      with ("*Successful Builds*" ++ nl ++ ">*"
            ++ ("1 repository* had a successful" ++ " build.")) in E.
    change " repositories* had successful builds."
      with (" repositories* had successful " ++ "builds.") in E.
    rewrite <- !string_app_assoc in E.
    by apply string_app_inv_tail in E.
Qed.

End RendererClaims.

(** ** The dispatcher *)

Section ChunkProps.
Context {A : Type}.

Lemma div_up_lt (a n k : nat) :
  n ≠ 0 → (k < (a + (n - 1)) / n ↔ k * n < a)%nat.
Proof.
  intros Hn.
  pose proof (Nat.div_mod_eq (a + (n - 1)) n) as Hdiv.
  pose proof (Nat.mod_upper_bound (a + (n - 1)) n Hn) as Hmod.
  set (q := ((a + (n - 1)) / n)%nat) in *.
  set (r := ((a + (n - 1)) mod n)%nat) in *. nia.
Qed.

Lemma range_from_spec (fuel k stop step : nat) :
  step ≠ 0 →
  ((stop + (step - 1)) / step - k ≤ fuel)%nat →
  range_from fuel (k * step) stop step
  = map (λ j, j * step)%nat (seq k ((stop + (step - 1)) / step - k)).
Proof.
  intros Hstep. revert k. induction fuel as [|fuel IH]; intros k Hfuel.
  - by replace ((stop + (step - 1)) / step - k)%nat with 0%nat by lia.
  - simpl. pose proof (div_up_lt stop step k Hstep) as Hk.
    destruct (Nat.ltb_spec (k * step) stop) as [Hlt|Hge].
    + apply Hk in Hlt.
      replace ((stop + (step - 1)) / step - k)%nat
        with (S ((stop + (step - 1)) / step - S k)) by lia.
      simpl. f_equal.
      replace (k * step + step)%nat with (S k * step)%nat by lia.
      apply IH. lia.
    + assert (¬ (k < (stop + (step - 1)) / step)%nat) as Hk' by (rewrite Hk; lia).
      by replace ((stop + (step - 1)) / step - k)%nat with 0%nat by lia.
Qed.

Lemma range0_spec (stop step : nat) :
  step ≠ 0 →
  range0 stop step
  = map (λ j, j * step)%nat (seq 0 ((stop + (step - 1)) / step)).
Proof.
  intros Hstep. unfold range0.
  rewrite <- (Nat.sub_0_r ((stop + (step - 1)) / step)) at 1.
  change 0%nat with (0 * step)%nat at 1.
  rewrite range_from_spec; [by rewrite Nat.sub_0_r | done |].
  rewrite Nat.sub_0_r.
  destruct (decide (stop < (stop + (step - 1)) / step)%nat) as [Hlt|]; [|lia].
  apply div_up_lt in Hlt; [|done]. nia.
Qed.

Lemma slice_chunk (l : list A) (k n : nat) :
  slice l (k * n) (k * n + n) = take n (drop (k * n) l).
Proof. unfold slice. f_equal. lia. Qed.






End ChunkProps.

Section DispatcherProps.
Context {W : Type} {HC : Collaborators W}.

Lemma for_each_ext {A} (f g : A → M W unit) (l : list A) (w : W) :
  (∀ x w, f x w = g x w) → for_each f l w = for_each g l w.
Proof.
  intros Hfg. revert w. induction l as [|x l IH]; intros w; [done|].
  simpl. unfold bind. rewrite Hfg.
  destruct (g x w) as [[[]|e] w1]; [apply IH | done].
Qed.

Lemma for_each_map {A B} (f : B → M W unit) (g : A → B) (l : list A) (w : W) :
  for_each f (map g l) w = for_each (λ x, f (g x)) l w.
Proof.
  revert w. induction l as [|x l IH]; intros w; [done|].
  simpl. unfold bind. destruct (f (g x) w) as [[[]|e] w1]; [apply IH | done].
Qed.

Lemma for_each_app {A} (f : A → M W unit) (l1 l2 : list A) (w : W) :
  for_each f (l1 ++ l2) w = bind (for_each f l1) (λ _, for_each f l2) w.
Proof.
  revert w. induction l1 as [|x l1 IH]; intros w; [done|].
  simpl. unfold bind in *.
  destruct (f x w) as [[[]|e] w1]; [apply IH | done].
Qed.

Lemma post_chunks_spec (team : string) (summary : list block) (n : nat) (w : W) :
  n ≠ 0 →
  post_chunks team summary n (range0 (length summary) n) w
  = for_each (λ tc, post_to_slack tc.1 tc.2)
      (map (pair team) (chunks n summary)) w.
Proof.
  intros Hn. unfold post_chunks, chunks.
  rewrite range0_spec by done. rewrite List.map_map, !for_each_map.
  apply for_each_ext. intros k w1. simpl. by rewrite slice_chunk.
Qed.

Lemma post_team_summaries_loop_spec (summaries : dict (list block))
    (n : nat) (keys : list string) (w : W) :
  n ≠ 0 →
  (∀ k, k ∈ keys → is_Some (dict_get k summaries)) →
  post_team_summaries_loop summaries n keys w
  = for_each (λ tc, post_to_slack tc.1 tc.2)
      (flat_map
         (λ team,
            map (pair team) (chunks n (default [] (dict_get team summaries))))
         keys) w.
Proof.
  intros Hn. revert w. induction keys as [|k keys IH]; intros w Hkeys; [done|].
  simpl. destruct (Hkeys k) as [summary Hk]; [apply elem_of_cons; by left|].
  rewrite Hk. simpl. destruct (Nat.eqb_spec n 0) as [|_]; [done|].
  rewrite for_each_app. unfold bind. rewrite post_chunks_spec by done.
  destruct (for_each _ (map (pair k) (chunks n summary)) w) as [[[]|e] w1];
    [|done].
  apply IH. intros k' Hk'. apply Hkeys, elem_of_cons. by right.
Qed.


End DispatcherProps.

(** ** Runs of the code in the scripted world *)

Section Runs.
Import Sim.

Example one_recent_scheduled_run :
  fst (check_development_status [scheduled_run "main" None] (at_time week []))
  = false.
Proof. reflexivity. Qed.

Example two_recent_scheduled_runs :
  fst (check_development_status
         [scheduled_run "main" None; scheduled_run "main" None]
         (at_time week []))
  = true.
Proof. reflexivity. Qed.

Example empty_history :
  fst (check_development_status [] (at_time week [])) = false
  ∧ fst (get_recent_scheduled_pipeline "billing" [] (at_time week []))
    = Ok None.
Proof. split; reflexivity. Qed.

(** C2 as stated fails: a push older than a week at the head of the history
    stops the scan before its trigger is looked at. *)
Lemma check_development_status_old_unscheduled :
  ¬ (∀ (p : pipeline) (rest : list pipeline) (w : world),
       trigger_name p ≠ "SCHEDULE" →
       fst (check_development_status (p :: rest) w) = true).
Proof.
  intros Hclaim.
  specialize (Hclaim pushed_run [] (at_time (3 * week) [])).
  vm_compute in Hclaim. by specialize (Hclaim ltac:(discriminate)).
Qed.

Lemma check_development_status_newest_unscheduled_witness :
  trigger_name pushed_run ≠ "SCHEDULE"
  ∧ ¬ stale pushed_run (at_time week [])
  ∧ fst (check_development_status
           [pushed_run; scheduled_run "main" None] (at_time week []))
    = true.
Proof.
  assert (trigger_name pushed_run ≠ "SCHEDULE") as H1 by discriminate.
  assert (¬ stale pushed_run (at_time week [])) as H2
    by (vm_compute; discriminate).
  split; [exact H1|]. split; [exact H2|].
  exact (check_development_status_newest_unscheduled pushed_run
           [scheduled_run "main" None] (at_time week []) H1 H2).
Defined.

Lemma get_recent_scheduled_pipeline_first_witness :
  get_default_branch "billing" (at_time week [])
  = (Ok (Some "main"), at_time week [])
  ∧ ∃ found,
      fst (get_recent_scheduled_pipeline "billing"
             [scheduled_run "develop" None;
              scheduled_run "main" (Some "FAILED")]
             (at_time week []))
      = Ok found
      ∧ found = Some (scheduled_run "main" (Some "FAILED")).
Proof.
  assert (get_default_branch "billing" (at_time week [])
          = (Ok (Some "main"), at_time week [])) as Hb by reflexivity.
  split; [exact Hb|].
  destruct (get_recent_scheduled_pipeline_first "billing"
              [scheduled_run "develop" None;
               scheduled_run "main" (Some "FAILED")]
              (Some "main") (at_time week []) (at_time week []) Hb)
    as (found & Hrun & Hfound & _).
  exists found. split; [exact Hrun|]. rewrite Hfound. reflexivity.
Defined.

Lemma stale_records_have_no_influence_witness :
  stale (scheduled_run "main" None) (at_time (3 * week) [])
  ∧ fst (check_development_status [scheduled_run "main" None]
           (at_time (3 * week) []))
    = false
  ∧ fst (get_recent_scheduled_pipeline "billing" [scheduled_run "main" None]
           (at_time (3 * week) []))
    = Ok None
  ∧ check_development_status
      [scheduled_run "main" None; pushed_run; pushed_run]
      (at_time (3 * week) [])
    = check_development_status
        [scheduled_run "main" None] (at_time (3 * week) []).
Proof.
  assert (stale (scheduled_run "main" None) (at_time (3 * week) [])) as Hs
    by (vm_compute; reflexivity).
  destruct (@stale_records_have_no_influence world sim_collaborators)
    as (H1 & H2 & H3 & _).
  split; [exact Hs|]. split; [exact (H1 _ _ Hs)|]. split.
  - exact (H2 "billing" _ (Some "main") (at_time (3 * week) [])
             (at_time (3 * week) []) eq_refl Hs).
  - exact (H3 [] (scheduled_run "main" None) [pushed_run; pushed_run] []
             (at_time (3 * week) []) eq_refl).
Defined.

(** With an [override] list the visit of a service never gets as far as a
    skip: the call of [match_override] raises. *)
Lemma process_service_override_raises {W : Type} {HC : Collaborators W}
    {HR : RegexLib} (override : option (list string)) (s : service)
    (builds : team_builds) (w : W) :
  truthy override = true →
  process_service override s builds w = (Raise TypeError, w)
  ∨ process_service override s builds w = (Raise ReError, w).
Proof.
  intros Ht. unfold process_service, bind.
  destruct (overridden_raises override s Ht) as [-> | ->]; auto.
Qed.

Example ledger_without_override :
  fst (process_services_builds None None catalog (at_time week replies))
  = Ok [("core", {| Succeeded := [my_legacy_api]; Failed := [legacy_api] |})].
Proof. reflexivity. Qed.

(** C3. What the code does with the ignore pattern ["^legacy-"]: called on
    a slug, [match_override] searches it, so that ["legacy-api"] matches
    and ["my-legacy-api"] does not; the ledger builder hands it the service
    entry instead, the search raises [TypeError], and the pass ends there
    with no ledger, the service being neither skipped nor recorded. *)
Theorem override_aborts_the_pass :
  match_override (PyStr "legacy-api") ["^legacy-"] = Ok true
  ∧ match_override (PyStr "my-legacy-api") ["^legacy-"] = Ok false
  ∧ overridden (Some ["^legacy-"]) legacy_api = Raise TypeError
  ∧ fst (process_services_builds None (Some ["^legacy-"]) catalog
           (at_time week replies))
    = Raise TypeError.
Proof. repeat split; reflexivity. Qed.

(** C10 as stated fails on a team that lists a repository twice: the two
    visits are classified apart when the run finishes in between, and the
    repository ends in both lists. *)
Lemma ledger_lists_overlap_when_listed_twice :
  ¬ (∀ (teams override : option (list string))
       (teams_services : dict (list service)) (w w' : world)
       (teams_recent_builds : dict team_builds),
       process_services_builds teams override teams_services w
         = (Ok teams_recent_builds, w') →
       ∀ team builds s,
         dict_get team teams_recent_builds = Some builds →
         s ∈ Succeeded builds → s ∉ Failed builds).
Proof.
  intros Hclaim.
  pose (run := process_services_builds None None twice_listed
                 (at_time week finishing)).
  specialize (Hclaim None None twice_listed (at_time week finishing) (snd run)
                [("core", {| Succeeded := [billing]; Failed := [billing] |})]
                eq_refl "core" {| Succeeded := [billing]; Failed := [billing] |}
                billing eq_refl).
  simpl in Hclaim. apply Hclaim; apply elem_of_cons; by left.
Qed.

Example twenty_three_blocks_posted :
  map (λ sent, (channel sent.2, length (blocks sent.2)))
    (outbox (snd (post_team_summaries_to_slack
                    [("core", replicate 23 divider)] 10 (at_time week []))))
  = [("team-core-bots", 10); ("team-core-bots", 10); ("team-core-bots", 3)]%nat.
Proof. reflexivity. Qed.

Lemma ledger_lists_disjoint_witness :
  let w := at_time week replies in
  let run := process_services_builds None None catalog w in
  let builds := {| Succeeded := [my_legacy_api]; Failed := [legacy_api] |} in
  run = (Ok [("core", builds)], snd run)
  ∧ dict_get "core" [("core", builds)] = Some builds
  ∧ NoDup [legacy_api; my_legacy_api; billing]
  ∧ NoDup (Succeeded builds ++ Failed builds)
  ∧ (billing ∉ Succeeded builds) ∧ (billing ∉ Failed builds).
Proof.
  intros w run builds.
  assert (run = (Ok [("core", builds)], snd run)) as Hrun by reflexivity.
  assert (dict_get "core" [("core", builds)] = Some builds) as Hget
    by reflexivity.
  assert (NoDup [legacy_api; my_legacy_api; billing]) as Hnd.
  { repeat apply NoDup_cons_2; try apply NoDup_nil_2;
      rewrite ?elem_of_cons, ?elem_of_nil; intuition discriminate. }
  split; [exact Hrun|]. split; [exact Hget|]. split; [exact Hnd|].
  destruct (ledger_lists_disjoint None None catalog w (snd run)
              [("core", builds)] Hrun "core" builds Hget)
    as (services & outcomes & w0 & w1 & Hservices & Hvisits & Hlen
        & Hsucc & Hfail & Hdisjoint).
  injection Hservices as <-.
  destruct (Hdisjoint Hnd) as [Hnodup Hskipped].
  split; [exact Hnodup|].
  destruct outcomes as [|o1 [|o2 [|o3 [|o4 outcomes]]]]; try discriminate Hlen.
  rewrite !select_cons in Hsucc, Hfail.
  destruct (decide (o3 = BuildSucceeded)) as [->|H3s].
  { exfalso. revert Hsucc.
    destruct (decide (o1 = BuildSucceeded)), (decide (o2 = BuildSucceeded));
      discriminate. }
  destruct (decide (o3 = BuildFailed)) as [->|H3f].
  { exfalso. revert Hfail.
    destruct (decide (o1 = BuildFailed)), (decide (o2 = BuildFailed));
      discriminate. }
  apply (Hskipped billing o3).
  - simpl. rewrite !elem_of_cons. right. right. by left.
  - by destruct o3.
Defined.


Lemma team_summaries_for_failed_only_witness :
  let core := {| Succeeded := [my_legacy_api]; Failed := [legacy_api] |} in
  dict_get "core" ledger = Some core
  ∧ Failed core ≠ []
  ∧ ∃ ts,
      generate_team_summaries ledger = Ok ts
      ∧ dict_get "core" ts
        = Some [title; divider; success_section 1; divider;
                section (TextObject mrkdwn
                  ("*Failed Builds*" ++ nl ++ link_line legacy_api))]
      ∧ dict_get "web" ts = None.
Proof.
  intros core.
  assert (dict_get "core" ledger = Some core) as Hcore by reflexivity.
  assert (Failed core ≠ []) as Hfailed by discriminate.
  split; [exact Hcore|]. split; [exact Hfailed|].
  destruct (team_summaries_for_failed_only ledger) as (ts & Hts & Hiff & Hshape).
  exists ts. split; [exact Hts|]. split.
  - destruct (Hshape "core" core Hcore Hfailed) as (text & -> & -> & _).
    reflexivity.
  - destruct (dict_get "web" ts) as [blocks|] eqn:Hweb; [|reflexivity].
    destruct (proj1 (Hiff "web")) as (builds & Hbuilds & Hne).
    + rewrite Hweb. by eexists.
    + injection Hbuilds as <-. by destruct Hne.
Defined.

Lemma success_count_phrasing_witness :
  let builds := {| Succeeded := [billing]; Failed := [legacy_api] |} in
  ¬ (Succeeded builds = [] ∧ Failed builds = [])
  ∧ overall_team_blocks "core" builds !! 2 = Some (success_section 1)
  ∧ 0 ≠ 1
  ∧ success_text 0 ≠ success_text 1.
Proof.
  intros builds.
  assert (¬ (Succeeded builds = [] ∧ Failed builds = [])) as Hne
    by (intros [E _]; discriminate E).
  assert (0 ≠ 1) as H01 by discriminate.
  destruct success_count_phrasing as (_ & _ & _ & Hoverall & _ & _ & _ & Hplural).
  split; [exact Hne|]. split; [exact (Hoverall "core" builds Hne)|].
  split; [exact H01|]. exact (proj2 (Hplural 0 H01)).
Defined.

End Runs.

(** * Further properties *)

(** ** The classifier *)

Section ClassifierMore.
Context {W : Type} {HC : Collaborators W}.

(** X1. [check_development_status] never reads past the second record: whatever
    the first two are, the counter has reached two or the scan has stopped
    before a third record is looked at or the clock is read a third time. *)
Theorem check_development_status_two_records
    (p1 p2 : pipeline) (rest rest' : list pipeline) (w : W) :
  check_development_status (p1 :: p2 :: rest) w
  = check_development_status (p1 :: p2 :: rest') w.
Proof.
  unfold check_development_status. simpl.
  destruct (datetime_now w) as [today w1].
  destruct (today - created_on p1 <=? recent)%Z; [|done].
  destruct (negb (String.eqb (trigger_name p1) "SCHEDULE")); simpl; [done|].
  destruct (datetime_now w1) as [today' w2].
  destruct (today' - created_on p2 <=? recent)%Z; [|done].
  by rewrite orb_true_r.
Qed.

Lemma get_recent_scheduled_pipeline_loop_no_branch
    (pipelines : list pipeline) (w : W) :
  fst (get_recent_scheduled_pipeline_loop None pipelines w) = None.
Proof.
  rewrite get_recent_scheduled_pipeline_loop_find.
  apply find_none. intros p _. unfold scheduled_on. simpl.
  by rewrite andb_false_r.
Qed.

(** X2. When the branch listing comes back as an error or is not JSON,
    [get_default_branch] returns [None]; no pattern equals it, and
    [get_recent_scheduled_pipeline] returns no record, whatever the
    history. *)
Theorem failed_branch_lookup_finds_nothing (repo_slug : string)
    (pipelines : list pipeline) (response : branches_response) (w w1 : W) :
  http_get_branches repo_slug w = (response, w1) →
  (∀ names, response ≠ BranchesValues names) →
  get_default_branch repo_slug w = (Ok None, w1)
  ∧ ∀ p, fst (get_recent_scheduled_pipeline repo_slug pipelines w) ≠ Ok (Some p).
Proof.
  intros Hresp Hfail.
  assert (get_default_branch repo_slug w = (Ok None, w1)) as Hnone.
  { unfold get_default_branch. rewrite Hresp.
    destruct response as [message|reason|names]; [done|done|].
    by destruct (Hfail names). }
  split; [exact Hnone|]. intros p.
  unfold get_recent_scheduled_pipeline, bind, lift. rewrite Hnone.
  pose proof (get_recent_scheduled_pipeline_loop_no_branch pipelines w1) as Hloop.
  destruct (get_recent_scheduled_pipeline_loop None pipelines w1) as [r w2].
  simpl in *. by subst r.
Qed.

(** X3. When the first scan says "not in development" and the second scan sees
    no more of the history than the first did, the scheduled build that is
    found is the newest record of the history, and the only one within the
    week. *)
Theorem found_build_is_newest (repo_slug : string) (pipelines : list pipeline)
    (branch : option string) (p : pipeline) (w w0 w1 : W) :
  fst (check_development_status pipelines w) = false →
  get_default_branch repo_slug w0 = (Ok branch, w1) →
  within_window pipelines w1 `prefix_of` within_window pipelines w →
  fst (get_recent_scheduled_pipeline repo_slug pipelines w0) = Ok (Some p) →
  ∃ rest,
    pipelines = p :: rest ∧
    within_window pipelines w1 = [p] ∧
    trigger_name p = "SCHEDULE" ∧
    branch = Some (target_pattern p).
Proof.
  intros Hdev Hb Hshrink Hfound.
  assert (length (within_window pipelines w) ≤ 1)%nat as Hlen.
  { destruct (decide (length (within_window pipelines w) ≤ 1)%nat); [done|].
    assert (false = true); [|done]. rewrite <- Hdev.
    apply check_development_status_iff. right. lia. }
  unfold get_recent_scheduled_pipeline, bind, lift in Hfound. rewrite Hb in Hfound.
  pose proof (get_recent_scheduled_pipeline_loop_find branch pipelines w1) as Hfind.
  destruct (get_recent_scheduled_pipeline_loop branch pipelines w1) as [r w2].
  simpl in *. injection Hfound as ->. symmetry in Hfind.
  apply find_first in Hfind as (before & after & Hw1 & _ & Hp).
  apply scheduled_on_spec in Hp as [Hs Hbr].
  apply prefix_length in Hshrink as Hle. rewrite Hw1 in Hle.
  rewrite length_app in Hle. simpl in Hle.
  destruct before as [|q before]; [|simpl in Hle; lia].
  destruct after as [|q after]; [|simpl in Hle; lia].
  simpl in Hw1.
  pose proof (within_window_prefix pipelines w1) as [rest Hrest].
  rewrite Hw1 in Hrest. by exists rest.
Qed.

End ClassifierMore.

(** ** The ledger builder *)

Section LedgerMore.
Context {W : Type} {HC : Collaborators W} {HR : RegexLib}.

Lemma dict_keys_set {V} (k : string) (v : V) (d : dict V) :
  dict_keys (dict_set k v d)
  = if bool_decide (k ∈ dict_keys d) then dict_keys d
    else (dict_keys d ++ [k])%list.
Proof.
  unfold dict_keys. induction d as [|[k0 v0] d IH]; simpl; [done|].
  destruct (String.eqb_spec k k0) as [->|Hne]; simpl.
  - rewrite bool_decide_eq_true_2; [done | apply elem_of_cons; by left].
  - rewrite IH. destruct (bool_decide (k ∈ map fst d)) eqn:Hin.
    + apply bool_decide_eq_true_1 in Hin.
      rewrite bool_decide_eq_true_2; [done | apply elem_of_cons; by right].
    + apply bool_decide_eq_false_1 in Hin.
      rewrite bool_decide_eq_false_2; [done|].
      rewrite elem_of_cons. by intros [?|?].
Qed.

Lemma skip_test (teams : option (list string)) (team : string) :
  truthy teams && negb (bool_decide (team ∈ list_of teams))
  = negb (selected teams team).
Proof.
  unfold selected.
  by destruct (truthy teams), (bool_decide (team ∈ list_of teams)).
Qed.

Lemma process_teams_keys teams override teams_services keys acc (w w' : W)
    result :
  process_teams teams override teams_services keys acc w = (Ok result, w') →
  NoDup keys →
  (∀ k, k ∈ keys → k ∉ dict_keys acc) →
  dict_keys result = (dict_keys acc ++ List.filter (selected teams) keys)%list.
Proof.
  revert acc w. induction keys as [|k keys IH]; intros acc w; simpl.
  - unfold ret. intros [= <- _] _ _. by rewrite app_nil_r.
  - rewrite skip_test. intros Hrun Hnd Hfresh.
    apply NoDup_cons in Hnd as [Hk Hnd].
    destruct (selected teams k); simpl in Hrun.
    + destruct (dict_get k teams_services) as [services|]; [|done].
      unfold bind at 1 in Hrun.
      destruct (process_team_services override services _ w) as [[b|e] w1];
        [|done].
      rewrite (IH _ _ Hrun Hnd).
      * rewrite !dict_keys_set.
        rewrite (bool_decide_eq_false_2 (k ∈ dict_keys acc))
          by (apply Hfresh, elem_of_cons; by left).
        rewrite (bool_decide_eq_true_2 (k ∈ (dict_keys acc ++ [k])%list))
          by (apply elem_of_app; right; apply elem_of_cons; by left).
        by rewrite <- app_assoc.
      * intros k' Hk'. rewrite !dict_keys_set.
        rewrite (bool_decide_eq_false_2 (k ∈ dict_keys acc))
          by (apply Hfresh, elem_of_cons; by left).
        rewrite (bool_decide_eq_true_2 (k ∈ (dict_keys acc ++ [k])%list))
          by (apply elem_of_app; right; apply elem_of_cons; by left).
        rewrite elem_of_app, elem_of_cons, elem_of_nil.
        intros [Hacc|[->|[]]]; [|done].
        revert Hacc. apply Hfresh, elem_of_cons. by right.
    + apply (IH _ _ Hrun Hnd). intros k' Hk'. apply Hfresh, elem_of_cons.
      by right.
Qed.

(** X4. The teams of the ledger are the teams of the inventory that pass the
    allow-list, in the order of the inventory: a team off the list has no
    entry, a team on it has one even when none of its services is recorded. *)
Theorem ledger_teams_are_the_selected_ones (teams override : option (list string))
    (teams_services : dict (list service)) (w w' : W)
    (teams_recent_builds : dict team_builds) :
  NoDup (dict_keys teams_services) →
  process_services_builds teams override teams_services w
    = (Ok teams_recent_builds, w') →
  dict_keys teams_recent_builds
  = List.filter (selected teams) (dict_keys teams_services).
Proof.
  intros Hnd Hrun. unfold process_services_builds in Hrun.
  rewrite (process_teams_keys _ _ _ _ _ _ _ _ Hrun Hnd); [done|].
  intros k _ Hk. inversion Hk.
Qed.

Lemma select_sublist o services outcomes :
  select o services outcomes `sublist_of` services.
Proof.
  revert outcomes. induction services as [|s services IH];
    intros [|o' outcomes]; try (unfold select; simpl; apply sublist_nil_l).
  rewrite select_cons. destruct (decide (o' = o)).
  - by apply sublist_skip.
  - by apply sublist_cons.
Qed.

Lemma select_lengths services outcomes :
  (length (select BuildSucceeded services outcomes)
   + length (select BuildFailed services outcomes) ≤ length services)%nat.
Proof.
  revert outcomes. induction services as [|s services IH];
    intros [|o' outcomes]; try (unfold select; simpl; lia).
  rewrite !select_cons. specialize (IH outcomes).
  destruct o'; simpl; lia.
Qed.

(** X5. Each list of a ledger entry holds services of the team in the order of
    the inventory, and the two lists together hold no more entries than the
    team has services. *)
Theorem ledger_lists_follow_the_inventory (teams override : option (list string))
    (teams_services : dict (list service)) (w w' : W)
    (teams_recent_builds : dict team_builds) (team : string)
    (builds : team_builds) :
  process_services_builds teams override teams_services w
    = (Ok teams_recent_builds, w') →
  dict_get team teams_recent_builds = Some builds →
  ∃ services,
    dict_get team teams_services = Some services ∧
    Succeeded builds `sublist_of` services ∧
    Failed builds `sublist_of` services ∧
    (length (Succeeded builds) + length (Failed builds) ≤ length services)%nat.
Proof.
  unfold process_services_builds. intros Hrun Hget.
  destruct (process_teams_origin _ _ _ _ _ _ _ _ Hrun team builds Hget)
    as [Hnil|(services & w0 & w1 & Hservices & Hloop)]; [done|].
  rewrite process_team_services_visits in Hloop.
  destruct (visits override services w0) as [[outcomes|e] w2]; [|done].
  injection Hloop as <- <-. simpl. exists services.
  split; [done|]. split; [apply select_sublist|]. split; [apply select_sublist|].
  apply select_lengths.
Qed.

End LedgerMore.

Section LedgerErrors.
Context {W : Type} {HC : Collaborators W} {HR : RegexLib}.

(** X6. A listing that cannot be used (an error body, a body that is not JSON, a
    body without ['values'], an empty page) makes the visit skip the
    service: the entry of the team is left as it was, nothing is raised and
    nothing else is requested. *)
Theorem unusable_listing_skips_the_service (override : option (list string))
    (s : service) (builds : team_builds) (response : pipelines_response)
    (w w1 : W) :
  truthy override = false →
  http_get_pipelines (RepositorySlug s) w = (response, w1) →
  (∀ p pipelines, response ≠ PipelinesValues (Some (p :: pipelines))) →
  process_service override s builds w = (Ok builds, w1).
Proof.
  intros Ho Hresp Hbad. apply overridden_false with (s := s) in Ho.
  unfold process_service, bind, lift, ret, get_latest_pipelines.
  rewrite Ho, Hresp.
  destruct response as [m|r|[[|p ps]|]]; try done. by destruct (Hbad p ps).
Qed.

(** X7. A repository whose branch listing holds neither [main] nor [master]
    makes [branches[0]] raise [IndexError]; nothing catches it, and the
    service loop stops there, whatever services follow. *)
Theorem no_default_branch_aborts (override : option (list string))
    (s : service) (rest : list service) (builds : team_builds)
    (pipelines : list pipeline) (w w1 w2 w3 : W) :
  truthy override = false →
  get_latest_pipelines (RepositorySlug s) w = (Some pipelines, w1) →
  pipelines ≠ [] →
  check_development_status pipelines w1 = (false, w2) →
  http_get_branches (RepositorySlug s) w2 = (BranchesValues [], w3) →
  process_team_services override (s :: rest) builds w = (Raise IndexError, w3).
Proof.
  intros Ho Hp Hne Hd Hb. apply overridden_false with (s := s) in Ho.
  simpl. unfold bind at 1. unfold process_service, bind, lift, ret.
  rewrite Ho, Hp. destruct pipelines as [|q qs]; [done|]. rewrite Hd.
  unfold get_recent_scheduled_pipeline, bind, get_default_branch.
  by rewrite Hb.
Qed.

Lemma process_team_services_overridden override services builds builds'
    (w w' : W) :
  truthy override = true →
  process_team_services override services builds w = (Ok builds', w') →
  services = [] ∧ builds' = builds ∧ w' = w.
Proof.
  intros Ht. destruct services as [|s services]; simpl.
  - unfold ret. by intros [= <- <-].
  - unfold bind.
    destruct (process_service_override_raises override s builds w Ht) as [E|E];
      by rewrite E.
Qed.

Lemma process_teams_overridden teams override teams_services keys acc
    (w w' : W) result :
  truthy override = true →
  process_teams teams override teams_services keys acc w = (Ok result, w') →
  w' = w ∧
  ∀ team builds,
    dict_get team result = Some builds →
    dict_get team acc = Some builds
    ∨ (builds = {| Succeeded := []; Failed := [] |}
       ∧ dict_get team teams_services = Some []).
Proof.
  intros Ht. revert acc. induction keys as [|k keys IH]; intros acc; simpl.
  - unfold ret. intros [= <- <-]. split; [done|]. by left.
  - destruct (truthy teams && negb (bool_decide (k ∈ list_of teams)));
      [apply IH|].
    destruct (dict_get k teams_services) as [services|] eqn:Hk; [|done].
    unfold bind at 1.
    destruct (process_team_services override services _ w) as [[b|e] w1] eqn:Hs;
      [|done].
    apply process_team_services_overridden in Hs as (-> & -> & ->); [|done].
    intros Hrest. destruct (IH _ Hrest) as [-> Hentries]. split; [done|].
    intros team builds Hget.
    destruct (Hentries team builds Hget) as [Hacc|Hnew]; [|by right].
    rewrite !dict_get_set in Hacc.
    destruct (String.eqb_spec team k) as [->|Hne]; [|by left].
    injection Hacc as <-. by right.
Qed.

(** X9. With an [override] list, a pass that does return has recorded nothing
    and requested nothing: every team it kept has no service at all, its two
    lists are empty and the world is as it was. *)
Theorem override_records_nothing (teams override : option (list string))
    (teams_services : dict (list service)) (w w' : W)
    (teams_recent_builds : dict team_builds) :
  truthy override = true →
  process_services_builds teams override teams_services w
    = (Ok teams_recent_builds, w') →
  w' = w ∧
  ∀ team builds,
    dict_get team teams_recent_builds = Some builds →
    builds = {| Succeeded := []; Failed := [] |}
    ∧ dict_get team teams_services = Some [].
Proof.
  intros Ht Hrun. unfold process_services_builds in Hrun.
  destruct (process_teams_overridden _ _ _ _ _ _ _ _ Ht Hrun) as [-> Hentries].
  split; [done|]. intros team builds Hget.
  by destruct (Hentries team builds Hget).
Qed.

Lemma process_teams_none_selected teams override teams_services keys acc (w : W) :
  (∀ k, k ∈ keys → selected teams k = false) →
  process_teams teams override teams_services keys acc w = (Ok acc, w).
Proof.
  induction keys as [|k keys IH]; intros Hkeys; simpl; [done|].
  rewrite skip_test, Hkeys by (apply elem_of_cons; by left). simpl.
  apply IH. intros k' Hk'. apply Hkeys, elem_of_cons. by right.
Qed.

(** X10. When no team of the inventory is on the allow-list, the pass returns an
    empty ledger without a single request. *)
Theorem no_selected_team_no_request (teams override : option (list string))
    (teams_services : dict (list service)) (w : W) :
  (∀ team, team ∈ dict_keys teams_services → selected teams team = false) →
  process_services_builds teams override teams_services w = (Ok [], w).
Proof. intros Hnone. by apply process_teams_none_selected. Qed.

End LedgerErrors.

(** ** The renderers *)

Section RendererMore.

(** The blocks one iteration of the loop of [generate_overall_summary]
    appends, case by case. *)
Lemma overall_team_blocks_shape (team : string) (builds : team_builds) :
  overall_team_blocks team builds
  = ([divider; section (TextObject mrkdwn ("Team: *" ++ team ++ "*"))]
     ++ match Succeeded builds, Failed builds with
       | [], [] =>
           [section (TextObject mrkdwn
              "No scheduled builds in repositories not in development.")]
       | _, [] =>
           [success_section (length (Succeeded builds));
            section (TextObject mrkdwn
              ("*Failed Builds*" ++ nl ++ ">No failed builds."))]
       | _, _ =>
           [success_section (length (Succeeded builds));
            section (TextObject mrkdwn
              ("*Failed Builds*" ++ nl
               ++ String.concat "" (map link_line (Failed builds))))]
       end)%list.
Proof.
  unfold overall_team_blocks, success_section.
  rewrite <- success_text_cases, failed_lines_concat.
  destruct (Nat.eqb (length (Succeeded builds)) 1);
    destruct (Succeeded builds) as [|s ss], (Failed builds) as [|f fs];
    reflexivity.
Qed.

(** X11. [generate_overall_summary] always returns: the header, then for each
    team of the ledger, in order, a divider and the name of the team followed
    by a single notice when the team has no build at all, or else by the
    success count and the failure section, which lists the failed
    repositories as link lines or, there being none, says so. *)
Theorem overall_summary_shape (trb : dict team_builds) :
  generate_overall_summary trb
  = Ok (title
        :: flat_map
             (λ team,
                match dict_get team trb with
                | None => []
                | Some builds =>
                    [divider;
                     section (TextObject mrkdwn ("Team: *" ++ team ++ "*"))]
                    ++ match Succeeded builds, Failed builds with
                       | [], [] =>
                           [section (TextObject mrkdwn
                              "No scheduled builds in repositories not in development.")]
                       | _, [] =>
                           [success_section (length (Succeeded builds));
                            section (TextObject mrkdwn
                              ("*Failed Builds*" ++ nl ++ ">No failed builds."))]
                       | _, _ =>
                           [success_section (length (Succeeded builds));
                            section (TextObject mrkdwn
                              ("*Failed Builds*" ++ nl
                               ++ String.concat ""
                                    (map link_line (Failed builds))))]
                       end
                end)
             (dict_keys trb))%list.
Proof.
  unfold generate_overall_summary.
  rewrite generate_overall_summary_loop_spec
    by (intros k Hk; by apply dict_get_keys).
  simpl. do 2 f_equal. apply flat_map_ext. intros team.
  destruct (dict_get team trb) as [builds|]; [|done].
  apply overall_team_blocks_shape.
Qed.

(** X12. A team's digest is always five blocks, so that it goes out as one
    message: its only chunk is the digest itself. *)
Theorem team_digest_is_one_chunk (trb : dict team_builds)
    (ts : dict (list block)) (team : string) (blocks : list block) :
  generate_team_summaries trb = Ok ts →
  dict_get team ts = Some blocks →
  length blocks = 5%nat ∧ chunks 10 blocks = [blocks].
Proof.
  intros Hts Hget.
  destruct (generate_team_summaries_lookup trb) as (ts' & Hts' & Hlookup).
  assert (ts' = ts) as -> by congruence.
  rewrite Hlookup in Hget. destruct (dict_get team trb) as [b|]; [|done].
  destruct (Nat.eqb (length (Failed b)) 0); [done|]. injection Hget as <-.
  split; reflexivity.
Qed.

Lemma generate_team_summaries_loop_keys trb keys acc ts :
  generate_team_summaries_loop trb keys acc = Ok ts →
  NoDup keys →
  (∀ k, k ∈ keys → k ∉ dict_keys acc) →
  dict_keys ts = (dict_keys acc ++ List.filter (has_failed trb) keys)%list.
Proof.
  revert acc. induction keys as [|k keys IH]; intros acc; simpl.
  - intros [= <-] _ _. by rewrite app_nil_r.
  - intros Hrun Hnd Hfresh. apply NoDup_cons in Hnd as [Hk Hnd].
    unfold has_failed at 1.
    destruct (dict_get k trb) as [b|]; [|done].
    destruct (Nat.eqb (length (Failed b)) 0); simpl.
    + apply (IH _ Hrun Hnd). intros k' Hk'. apply Hfresh, elem_of_cons.
      by right.
    + rewrite (IH _ Hrun Hnd).
      * rewrite dict_keys_set.
        rewrite bool_decide_eq_false_2 by (apply Hfresh, elem_of_cons; by left).
        by rewrite <- app_assoc.
      * intros k' Hk'. rewrite dict_keys_set.
        rewrite bool_decide_eq_false_2 by (apply Hfresh, elem_of_cons; by left).
        rewrite elem_of_app, elem_of_cons, elem_of_nil.
        intros [Hacc|[->|[]]]; [|done].
        revert Hacc. apply Hfresh, elem_of_cons. by right.
Qed.

(** X13. The team digests come in the order of the ledger: their teams are the
    teams of the ledger with a failed build, none added, none moved. *)
Theorem team_summaries_keep_the_order (trb : dict team_builds)
    (ts : dict (list block)) :
  NoDup (dict_keys trb) →
  generate_team_summaries trb = Ok ts →
  dict_keys ts = List.filter (has_failed trb) (dict_keys trb).
Proof.
  intros Hnd Hts. unfold generate_team_summaries in Hts.
  rewrite (generate_team_summaries_loop_keys _ _ _ _ Hts Hnd); [done|].
  intros k _ Hk. inversion Hk.
Qed.

End RendererMore.

(** ** The dispatcher *)

Section DispatcherMore.
Context {W : Type} {HC : Collaborators W} {HR : RegexLib}.

Lemma for_each_unconfigured (calls : list (string * list block)) (w : W) :
  (∀ tc, post_to_slack tc.1 tc.2 w = (Raise SystemExit, w)) →
  for_each (λ tc, post_to_slack tc.1 tc.2) calls w
  = match calls with
    | [] => (Ok tt, w)
    | _ :: _ => (Raise SystemExit, w)
    end.
Proof.
  intros Hexit. destruct calls as [|tc calls]; [done|].
  simpl. unfold bind. by rewrite Hexit.
Qed.

(** X14. Without a webhook URL in the environment (unset, or set to the empty
    string) the first chunk to post ends the process with [SystemExit] and
    nothing has been posted; only when there is no block at all to post does
    the dispatcher return. *)
Theorem unconfigured_webhook_exits (summaries : dict (list block)) (w : W) :
  environ_get "SLACK_WEBHOOK_URL" w = None
  ∨ environ_get "SLACK_WEBHOOK_URL" w = Some "" →
  post_team_summaries_to_slack summaries 10 w
  = match deliveries summaries 10 with
    | [] => (Ok tt, w)
    | _ :: _ => (Raise SystemExit, w)
    end.
Proof.
  intros Henv.
  unfold post_team_summaries_to_slack, deliveries.
  rewrite post_team_summaries_loop_spec;
    [|done|intros k Hk; by apply dict_get_keys].
  apply for_each_unconfigured. intros tc. unfold post_to_slack.
  by destruct Henv as [-> | ->].
Qed.

Lemma for_each_configured (url : string) (calls : list (string * list block))
    (w : W) :
  url ≠ "" →
  environ_get "SLACK_WEBHOOK_URL" w = Some url →
  (∀ u payload w,
     environ_get "SLACK_WEBHOOK_URL" (requests_post u payload w)
     = environ_get "SLACK_WEBHOOK_URL" w) →
  for_each (λ tc, post_to_slack tc.1 tc.2) calls w
  = (Ok tt,
     fold_left
       (λ w tc,
          requests_post url
            {| blocks := tc.2; channel := "team-" ++ tc.1 ++ "-bots" |} w)
       calls w).
Proof.
  intros Hurl Henv Hstable. revert w Henv.
  induction calls as [|tc calls IH]; intros w Henv; [done|].
  simpl. unfold bind. unfold post_to_slack at 1. rewrite Henv.
  destruct url as [|c url]; [done|]. apply IH. by rewrite Hstable.
Qed.

(** X15. With a webhook URL in the environment, and posting leaving the
    environment alone, the dispatcher never raises, whatever becomes of the
    requests: every chunk is posted to that URL, in order, on the channel
    [team-<team>-bots] of its team. *)
Theorem configured_webhook_posts_every_chunk (url : string)
    (summaries : dict (list block)) (w : W) :
  url ≠ "" →
  environ_get "SLACK_WEBHOOK_URL" w = Some url →
  (∀ u payload w,
     environ_get "SLACK_WEBHOOK_URL" (requests_post u payload w)
     = environ_get "SLACK_WEBHOOK_URL" w) →
  post_team_summaries_to_slack summaries 10 w
  = (Ok tt,
     fold_left
       (λ w tc,
          requests_post url
            {| blocks := tc.2; channel := "team-" ++ tc.1 ++ "-bots" |} w)
       (deliveries summaries 10) w).
Proof.
  intros Hurl Henv Hstable.
  unfold post_team_summaries_to_slack, deliveries.
  rewrite post_team_summaries_loop_spec;
    [|done|intros k Hk; by apply dict_get_keys].
  by apply for_each_configured.
Qed.


Lemma deliveries_keys_ext (a b : dict (list block)) (keys : list string) (n : nat) :
  (∀ k, k ∈ keys → dict_get k a = dict_get k b) →
  flat_map (λ team, map (pair team) (chunks n (default [] (dict_get team a)))) keys
  = flat_map (λ team, map (pair team) (chunks n (default [] (dict_get team b)))) keys.
Proof.
  induction keys as [|k keys IH]; intros Hext; [done|]. simpl.
  rewrite Hext by (apply elem_of_cons; by left). f_equal.
  apply IH. intros k' Hk'. apply Hext, elem_of_cons. by right.
Qed.

(** X17. A run that is not dry builds the ledger, renders both digests and hands
    them to the dispatcher; the overall digest is stored under the recipient
    [OVERALL_SUMMARY_RECIPIENT] and, no team digest being stored under that
    name, is posted after all the team digests. A dry run stops once the
    ledger is built and posts nothing. *)
Theorem process_services_composes (teams override : option (list string))
    (teams_services : dict (list service)) (w w1 : W)
    (teams_recent_builds : dict team_builds) :
  process_services_builds teams override teams_services w
    = (Ok teams_recent_builds, w1) →
  process_services teams override teams_services true w = (Ok tt, w1)
  ∧ ∃ overall_summary team_summaries,
      generate_overall_summary teams_recent_builds = Ok overall_summary
      ∧ generate_team_summaries teams_recent_builds = Ok team_summaries
      ∧ process_services teams override teams_services false w
        = for_each (λ tc, post_to_slack tc.1 tc.2)
            (deliveries
               (dict_set OVERALL_SUMMARY_RECIPIENT overall_summary team_summaries)
               10) w1
      ∧ (dict_get OVERALL_SUMMARY_RECIPIENT team_summaries = None →
         deliveries
           (dict_set OVERALL_SUMMARY_RECIPIENT overall_summary team_summaries) 10
         = (deliveries team_summaries 10
            ++ map (pair OVERALL_SUMMARY_RECIPIENT) (chunks 10 overall_summary))%list).
Proof.
  intros Hrun. split.
  { unfold process_services, bind. by rewrite Hrun. }
  destruct (generate_team_summaries_lookup teams_recent_builds)
    as (team_summaries & Hts & _).
  eexists _, team_summaries. split; [|split; [exact Hts|split]].
  - unfold generate_overall_summary.
    apply generate_overall_summary_loop_spec.
    intros k Hk. by apply dict_get_keys.
  - unfold process_services, bind. rewrite Hrun.
    unfold generate_overall_summary.
    rewrite generate_overall_summary_loop_spec
      by (intros k Hk; by apply dict_get_keys).
    rewrite Hts. unfold post_team_summaries_to_slack, deliveries.
    apply post_team_summaries_loop_spec; [done|].
    intros k Hk. by apply dict_get_keys.
  - intros Hfree. unfold deliveries. rewrite dict_keys_set.
    rewrite bool_decide_eq_false_2
      by (rewrite dict_get_keys, Hfree; by intros [? ?]).
    rewrite flat_map_app. f_equal.
    + apply deliveries_keys_ext. intros k Hk. rewrite dict_get_set.
      destruct (String.eqb_spec k OVERALL_SUMMARY_RECIPIENT) as [->|]; [|done].
      apply dict_get_keys in Hk. rewrite Hfree in Hk. by destruct Hk.
    + simpl. rewrite dict_get_set, String.eqb_refl. simpl. by rewrite app_nil_r.
Qed.

End DispatcherMore.

(** ** The service catalog *)

Section SplitProps.

Lemma py_split_nonempty (sep : ascii) (s : string) : py_split sep s ≠ [].
Proof.
  destruct s as [|c s]; simpl; [done|].
  destruct (Ascii.eqb c sep); [done|]. by destruct (py_split sep s).
Qed.

Lemma py_split_length (sep : ascii) (s : string) :
  length (py_split sep s) = S (count_char sep s).
Proof.
  induction s as [|c s IH]; simpl; [done|].
  destruct (Ascii.eqb c sep); simpl; [by rewrite IH|].
  pose proof (py_split_nonempty sep s).
  destruct (py_split sep s); [done|]. simpl in *. lia.
Qed.

Lemma py_split_no_sep (sep : ascii) (s part : string) :
  part ∈ py_split sep s → count_char sep part = 0%nat.
Proof.
  revert part. induction s as [|c s IH]; intros part; simpl.
  - rewrite elem_of_cons, elem_of_nil. by intros [->|[]].
  - destruct (Ascii.eqb c sep) eqn:Hc.
    + rewrite elem_of_cons. intros [->|Hin]; [done | by apply IH].
    + pose proof (py_split_nonempty sep s).
      destruct (py_split sep s) as [|p ps]; [done|].
      rewrite elem_of_cons. intros [->|Hin].
      * simpl. rewrite Hc. apply IH, elem_of_cons. by left.
      * apply IH, elem_of_cons. by right.
Qed.

Lemma py_split_join (sep : ascii) (s : string) :
  String.concat (String sep "") (py_split sep s) = s.
Proof.
  induction s as [|c s IH]; simpl; [done|].
  pose proof (py_split_nonempty sep s) as Hne.
  destruct (Ascii.eqb_spec c sep) as [->|Hc].
  - destruct (py_split sep s) as [|p ps] eqn:E; [done|].
    change (String.concat (String sep "") ("" :: p :: ps))
      with (String sep (String.concat (String sep "") (p :: ps))).
    by rewrite IH.
  - destruct (py_split sep s) as [|p ps] eqn:E; [done|].
    rewrite <- IH. by destruct ps.
Qed.

End SplitProps.

Section CatalogProps.

Lemma dict_set_NoDup {V} (k : string) (v : V) (d : dict V) :
  NoDup (dict_keys d) → NoDup (dict_keys (dict_set k v d)).
Proof.
  intros Hnd. rewrite dict_keys_set.
  destruct (bool_decide (k ∈ dict_keys d)) eqn:Hk; [done|].
  apply bool_decide_eq_false_1 in Hk. apply NoDup_app. split; [done|].
  split; [|apply NoDup_singleton].
  intros x Hx Hx'. apply list_elem_of_singleton in Hx' as ->. done.
Qed.

(** X18. Adding one definition of the catalog, which carries a team and a
    list of links, raises [IndexError] exactly when the list of links is
    empty or the URL of its last link has fewer than four slashes. *)
Theorem add_service_fails (d : service_definition)
    (teams : dict (list service)) :
  add_service d teams = Raise IndexError ↔
  schema_links d = []
  ∨ ∃ url, last (schema_links d) = Some url ∧ (count_char "/" url < 4)%nat.
Proof.
  unfold add_service.
  destruct (last (schema_links d)) as [url|] eqn:Hlast.
  - pose proof (py_split_length "/" url) as Hlen.
    destruct (py_split "/" url !! 4%nat) as [slug|] eqn:Hslug.
    + apply lookup_lt_Some in Hslug. split.
      * by destruct (negb (String.eqb slug "workspace")).
      * intros [Hnil|(url' & [= <-] & Hcount)]; [|lia].
        rewrite Hnil in Hlast. done.
    + apply lookup_ge_None in Hslug. split; [|done].
      intros _. right. exists url. split; [done|]. lia.
  - apply last_None in Hlast. split; [|done]. intros _. by left.
Qed.

Lemma add_service_effect (d : service_definition)
    (teams teams' : dict (list service)) :
  add_service d teams = Ok teams' →
  ∃ url slug,
    last (schema_links d) = Some url ∧
    py_split "/" url !! 4%nat = Some slug ∧
    (∀ team, team ≠ schema_team d → dict_get team teams' = dict_get team teams) ∧
    dict_get (schema_team d) teams'
    = Some (default [] (dict_get (schema_team d) teams)
            ++ if String.eqb slug "workspace" then [] else [Service slug url])%list.
Proof.
  unfold add_service.
  destruct (last (schema_links d)) as [url|] eqn:Hlast; [|done].
  destruct (py_split "/" url !! 4%nat) as [slug|] eqn:Hslug; [|done].
  intros Hadd. exists url, slug. split; [done|]. split; [done|].
  destruct (dict_get (schema_team d) teams) as [services|] eqn:Hteam;
    destruct (String.eqb slug "workspace"); simpl in Hadd;
    injection Hadd as <-; split;
    try (intros team Hne; rewrite ?dict_get_set;
         apply String.eqb_neq in Hne; by rewrite ?Hne);
    rewrite ?dict_get_set, ?String.eqb_refl, ?Hteam, ?app_nil_r; done.
Qed.

(** X19. Adding one definition leaves the other teams as they are and gives the
    team of the definition an entry, new if need be, to which it appends the
    repository, unless the fifth piece of the URL is ["workspace"]: then the
    team is there all the same, with nothing appended. *)
Theorem add_service_succeeds (d : service_definition)
    (teams teams' : dict (list service)) :
  add_service d teams = Ok teams' →
  ∃ url slug,
    last (schema_links d) = Some url ∧
    py_split "/" url !! 4%nat = Some slug ∧
    (∀ team, team ≠ schema_team d → dict_get team teams' = dict_get team teams) ∧
    dict_get (schema_team d) teams'
    = Some (default [] (dict_get (schema_team d) teams)
            ++ if String.eqb slug "workspace" then [] else [Service slug url])%list.
Proof. apply add_service_effect. Qed.

Lemma add_service_entries_ok (d : service_definition)
    (teams teams' : dict (list service)) :
  entries_ok teams → add_service d teams = Ok teams' → entries_ok teams'.
Proof.
  intros [Hnd Hok] Hadd. split.
  - revert Hadd. unfold add_service.
    destruct (last (schema_links d)) as [url|]; [|done].
    destruct (py_split "/" url !! 4%nat) as [slug|]; [|done].
    destruct (dict_get (schema_team d) teams);
      destruct (negb (String.eqb slug "workspace"));
      intros [= <-]; repeat apply dict_set_NoDup; done.
  - destruct (add_service_effect d teams teams' Hadd)
      as (url & slug & _ & Hslug & Hother & Hteam).
    intros team services s Hget Hin.
    destruct (decide (team = schema_team d)) as [->|Hne].
    + rewrite Hteam in Hget. injection Hget as <-.
      apply elem_of_app in Hin as [Hin|Hin].
      * destruct (dict_get (schema_team d) teams) as [old|] eqn:Hold;
          [by eapply Hok | inversion Hin].
      * destruct (String.eqb_spec slug "workspace"); [inversion Hin|].
        apply list_elem_of_singleton in Hin as ->. by split.
    + rewrite Hother in Hget by done. by eapply Hok.
Qed.

Lemma add_services_entries_ok (data : list service_definition)
    (teams teams' : dict (list service)) :
  entries_ok teams → add_services data teams = Ok teams' → entries_ok teams'.
Proof.
  revert teams. induction data as [|d data IH]; intros teams Hok; simpl.
  - by intros [= <-].
  - destruct (add_service d teams) as [t|e] eqn:Hadd; [|done].
    apply IH. by eapply add_service_entries_ok.
Qed.

Lemma add_services_app (l1 l2 : list service_definition)
    (teams : dict (list service)) :
  add_services (l1 ++ l2) teams
  = match add_services l1 teams with
    | Ok teams => add_services l2 teams
    | Raise e => Raise e
    end.
Proof.
  revert teams. induction l1 as [|d l1 IH]; intros teams; simpl; [done|].
  destruct (add_service d teams); [apply IH | done].
Qed.

End CatalogProps.

Section CrawlProps.
Context {W : Type} {HK : Catalog W}.

Lemma get_active_services_loop_entries_ok (fuel page : nat)
    (teams teams' : dict (list service)) (w w' : W) :
  entries_ok teams →
  get_active_services_loop fuel page teams w = (Some (Ok teams'), w') →
  entries_ok teams'.
Proof.
  revert page teams w. induction fuel as [|fuel IH]; intros page teams w Hok;
    simpl; [done|].
  destruct (list_service_definitions page w) as [[[|e es]|data] w1]; try done.
  - by intros [= <- _].
  - destruct (add_services data teams) as [t|e] eqn:Hadd; [|done].
    apply add_services_entries_ok in Hadd; [|done].
    destruct data as [|d data]; [by intros [= <- _]|]. by apply IH.
Qed.

(** X20. Whenever the crawl returns an inventory, each team occurs once in it,
    and every entry has for slug the fifth piece of its URL cut at the
    slashes, a piece that is not ["workspace"] and holds no slash. *)
Theorem inventory_entries_are_well_formed (fuel : nat) (w w' : W)
    (teams : dict (list service)) :
  get_active_services fuel w = (Some (Ok teams), w') →
  NoDup (dict_keys teams)
  ∧ ∀ team services s,
      dict_get team teams = Some services → s ∈ services →
      py_split "/" (RepositoryUrl s) !! 4%nat = Some (RepositorySlug s)
      ∧ RepositorySlug s ≠ "workspace"
      ∧ count_char "/" (RepositorySlug s) = 0%nat.
Proof.
  intros Hrun. unfold get_active_services in Hrun.
  apply get_active_services_loop_entries_ok in Hrun as [Hnd Hok].
  - split; [done|]. intros team services s Hget Hin.
    destruct (Hok team services s Hget Hin) as [Hslug Hne].
    split; [done|]. split; [done|].
    eapply py_split_no_sep, list_elem_of_lookup_2, Hslug.
  - split; [constructor|]. intros team services s Hget. done.
Qed.

Lemma get_active_services_loop_pages (pages : nat → catalog_page)
    (data : nat → list service_definition) (k : nat) :
  (∀ page w, fst (list_service_definitions page w) = pages page) →
  ∀ (page fuel : nat) (teams : dict (list service)) (w : W),
    (∀ j, (j < k)%nat →
          pages (page + j)%nat = CatalogData (data (page + j)%nat)
          ∧ data (page + j)%nat ≠ []) →
    (pages (page + k)%nat = CatalogData []
     ∨ ∃ e es, pages (page + k)%nat = CatalogErrors (e :: es)) →
    (k < fuel)%nat →
    ∃ n,
      (1 ≤ n ≤ S k)%nat ∧
      get_active_services_loop fuel page teams w
      = (Some (add_services (flat_map data (seq page k)) teams),
         crawl_requests page n w) ∧
      (∀ t, add_services (flat_map data (seq page k)) teams = Ok t → n = S k).
Proof.
  intros Hpages. induction k as [|k IH]; intros page fuel teams w Hdata Hstop Hfuel;
    (destruct fuel as [|fuel]; [lia|]); simpl;
    pose proof (Hpages page w) as Hresp;
    destruct (list_service_definitions page w) as [response w1] eqn:Hreq;
    simpl in Hresp; subst response.
  - rewrite Nat.add_0_r in Hstop. exists 1%nat. simpl. rewrite Hreq. simpl.
    split; [lia|]. split; [|done].
    destruct Hstop as [-> | (e & es & ->)]; done.
  - destruct (Hdata 0%nat) as [Hpage Hne]; [lia|].
    rewrite Nat.add_0_r in Hpage, Hne. rewrite Hpage, add_services_app.
    destruct (add_services (data page) teams) as [t|e] eqn:Hadd.
    + destruct (data page) as [|d ds] eqn:Hd; [done|].
      destruct (IH (S page) fuel t w1) as (n & Hn & Hrun & Hok); [| |lia|].
      * intros j Hj. replace (S page + j)%nat with (page + S j)%nat by lia.
        apply Hdata. lia.
      * by replace (S page + k)%nat with (page + S k)%nat by lia.
      * exists (S n). simpl. rewrite Hreq. simpl.
        split; [lia|]. split; [done|]. intros t' Ht'. f_equal. by apply (Hok t').
    + exists 1%nat. simpl. rewrite Hreq. simpl. split; [lia|]. by split.
Qed.

(** X21. When the answer of the catalog depends on the page number only, the
    crawl asks for the pages in order, from page 0 up to the first page that
    is empty or carries errors and never beyond it, and, given fuel for that
    many pages, returns what adding the definitions of the pages before it,
    one after the other, gives. When every definition can be added, it
    returns the inventory after asking for exactly those pages; the pages
    read before an error page are kept. *)
Theorem crawl_stops_at_first_empty_or_error_page (pages : nat → catalog_page)
    (data : nat → list service_definition) (k fuel : nat) (w : W) :
  (∀ page w, fst (list_service_definitions page w) = pages page) →
  (∀ j, (j < k)%nat → pages j = CatalogData (data j) ∧ data j ≠ []) →
  (pages k = CatalogData [] ∨ ∃ e es, pages k = CatalogErrors (e :: es)) →
  (k < fuel)%nat →
  (∃ n,
     (1 ≤ n ≤ S k)%nat ∧
     get_active_services fuel w
     = (Some (add_services (flat_map data (seq 0 k)) []), crawl_requests 0 n w))
  ∧ (∀ teams,
       add_services (flat_map data (seq 0 k)) [] = Ok teams →
       get_active_services fuel w
       = (Some (Ok teams), crawl_requests 0 (S k) w)).
Proof.
  intros Hpages Hdata Hstop Hfuel. unfold get_active_services.
  destruct (get_active_services_loop_pages pages data k Hpages 0%nat fuel [] w)
    as (n & Hn & Hrun & Hok); [done|done|done|].
  split; [by exists n|].
  intros teams Hteams. rewrite Hrun, Hteams. by rewrite (Hok teams Hteams).
Qed.

End CrawlProps.

(** ** Further runs in the scripted world *)

Section MoreRuns.
Import Sim.

Lemma failed_branch_lookup_finds_nothing_witness :
  let w := World week 0 (fun _ => BranchesError "Repository not found") []
             (fun _ => None) [] in
  http_get_branches "billing" w = (BranchesError "Repository not found", w)
  ∧ (∀ names, BranchesError "Repository not found" ≠ BranchesValues names)
  ∧ get_default_branch "billing" w = (Ok None, w)
  ∧ fst (get_recent_scheduled_pipeline "billing"
           [scheduled_run "main" (Some "FAILED")] w)
    ≠ Ok (Some (scheduled_run "main" (Some "FAILED"))).
Proof.
  intros w.
  assert (http_get_branches "billing" w
          = (BranchesError "Repository not found", w)) as H1 by reflexivity.
  assert (∀ names, BranchesError "Repository not found" ≠ BranchesValues names)
    as H2 by discriminate.
  split; [exact H1|]. split; [exact H2|].
  destruct (failed_branch_lookup_finds_nothing "billing"
              [scheduled_run "main" (Some "FAILED")] _ w w H1 H2)
    as [Hnone Hno].
  split; [exact Hnone|]. exact (Hno _).
Defined.

Lemma found_build_is_newest_witness :
  let w := at_time week [] in
  let history :=
    [scheduled_run "main" (Some "FAILED"); Pipeline (- week) "PUSH" "main" None] in
  let w' := snd (check_development_status history w) in
  fst (check_development_status history w) = false
  ∧ get_default_branch "billing" w' = (Ok (Some "main"), w')
  ∧ within_window history w' `prefix_of` within_window history w
  ∧ fst (get_recent_scheduled_pipeline "billing" history w')
    = Ok (Some (scheduled_run "main" (Some "FAILED")))
  ∧ ∃ rest, history = scheduled_run "main" (Some "FAILED") :: rest.
Proof.
  intros w history w'.
  assert (fst (check_development_status history w) = false) as H1
    by reflexivity.
  assert (get_default_branch "billing" w' = (Ok (Some "main"), w')) as H2
    by reflexivity.
  assert (within_window history w' `prefix_of` within_window history w) as H3
    by (exists []; reflexivity).
  assert (fst (get_recent_scheduled_pipeline "billing" history w')
          = Ok (Some (scheduled_run "main" (Some "FAILED")))) as H4
    by reflexivity.
  split; [exact H1|]. split; [exact H2|]. split; [exact H3|].
  split; [exact H4|].
  destruct (found_build_is_newest "billing" history (Some "main") _ w w' w'
              H1 H2 H3 H4) as (rest & Hrest & _).
  by exists rest.
Defined.

Lemma catalog_keys_distinct : NoDup (dict_keys catalog).
Proof. repeat constructor. intros Hin. inversion Hin. Qed.

Lemma ledger_teams_are_the_selected_ones_witness :
  let w := at_time week replies in
  let run := process_services_builds (Some ["core"; "ops"]) None catalog w in
  let builds := {| Succeeded := [my_legacy_api]; Failed := [legacy_api] |} in
  NoDup (dict_keys catalog)
  ∧ run = (Ok [("core", builds)], snd run)
  ∧ dict_keys [("core", builds)]
    = List.filter (selected (Some ["core"; "ops"])) (dict_keys catalog).
Proof.
  intros w run builds.
  assert (run = (Ok [("core", builds)], snd run)) as Hrun by reflexivity.
  split; [exact catalog_keys_distinct|]. split; [exact Hrun|].
  exact (ledger_teams_are_the_selected_ones (Some ["core"; "ops"]) None catalog
           w (snd run) [("core", builds)] catalog_keys_distinct Hrun).
Defined.

Lemma ledger_lists_follow_the_inventory_witness :
  let w := at_time week replies in
  let run := process_services_builds None None catalog w in
  let builds := {| Succeeded := [my_legacy_api]; Failed := [legacy_api] |} in
  run = (Ok [("core", builds)], snd run)
  ∧ dict_get "core" [("core", builds)] = Some builds
  ∧ ∃ services,
      dict_get "core" catalog = Some services
      ∧ Succeeded builds `sublist_of` services
      ∧ Failed builds `sublist_of` services.
Proof.
  intros w run builds.
  assert (run = (Ok [("core", builds)], snd run)) as Hrun by reflexivity.
  assert (dict_get "core" [("core", builds)] = Some builds) as Hget
    by reflexivity.
  split; [exact Hrun|]. split; [exact Hget|].
  destruct (ledger_lists_follow_the_inventory None None catalog w (snd run)
              [("core", builds)] "core" builds Hrun Hget)
    as (services & Hservices & Hs & Hf & _).
  by exists services.
Defined.

Lemma unusable_listing_skips_the_service_witness :
  let w := at_time week [PipelinesError "Forbidden"] in
  let w1 := snd (http_get_pipelines "billing" w) in
  let builds := {| Succeeded := [legacy_api]; Failed := [] |} in
  truthy (None : option (list string)) = false
  ∧ http_get_pipelines (RepositorySlug billing) w
    = (PipelinesError "Forbidden", w1)
  ∧ (∀ p pipelines,
       PipelinesError "Forbidden" ≠ PipelinesValues (Some (p :: pipelines)))
  ∧ process_service None billing builds w = (Ok builds, w1).
Proof.
  intros w w1 builds.
  assert (truthy (None : option (list string)) = false) as H1 by reflexivity.
  assert (http_get_pipelines (RepositorySlug billing) w
          = (PipelinesError "Forbidden", w1)) as H2 by reflexivity.
  assert (∀ p pipelines,
            PipelinesError "Forbidden" ≠ PipelinesValues (Some (p :: pipelines)))
    as H3 by discriminate.
  split; [exact H1|]. split; [exact H2|]. split; [exact H3|].
  exact (unusable_listing_skips_the_service None billing builds _ w w1 H1 H2 H3).
Defined.

Lemma no_default_branch_aborts_witness :
  let history := [scheduled_run "develop" (Some "FAILED")] in
  let w := World week 0 (fun _ => BranchesValues [])
             [PipelinesValues (Some history)] (fun _ => None) [] in
  let w1 := snd (get_latest_pipelines "billing" w) in
  let builds := {| Succeeded := []; Failed := [] |} in
  truthy (None : option (list string)) = false
  ∧ get_latest_pipelines (RepositorySlug billing) w = (Some history, w1)
  ∧ history ≠ []
  ∧ check_development_status history w1 = (false, w1)
  ∧ http_get_branches (RepositorySlug billing) w1 = (BranchesValues [], w1)
  ∧ process_team_services None [billing; legacy_api] builds w
    = (Raise IndexError, w1).
Proof.
  intros history w w1 builds.
  assert (truthy (None : option (list string)) = false) as H1 by reflexivity.
  assert (get_latest_pipelines (RepositorySlug billing) w = (Some history, w1))
    as H2 by reflexivity.
  assert (history ≠ []) as H3 by discriminate.
  assert (check_development_status history w1 = (false, w1)) as H4
    by reflexivity.
  assert (http_get_branches (RepositorySlug billing) w1
          = (BranchesValues [], w1)) as H5 by reflexivity.
  repeat (split; [assumption|]).
  exact (no_default_branch_aborts None billing [legacy_api] builds history
           w w1 w1 w1 H1 H2 H3 H4 H5).
Defined.

Lemma override_records_nothing_witness :
  let w := at_time week replies in
  let inventory : dict (list service) := [("core", []); ("web", [])] in
  let empty := {| Succeeded := []; Failed := [] |} in
  truthy (Some ["^legacy-"]) = true
  ∧ process_services_builds None (Some ["^legacy-"]) inventory w
    = (Ok [("core", empty); ("web", empty)], w)
  ∧ dict_get "web" [("core", empty); ("web", empty)] = Some empty
  ∧ dict_get "web" inventory = Some [].
Proof.
  intros w inventory empty.
  assert (truthy (Some ["^legacy-"]) = true) as H1 by reflexivity.
  assert (process_services_builds None (Some ["^legacy-"]) inventory w
          = (Ok [("core", empty); ("web", empty)], w)) as H2 by reflexivity.
  assert (dict_get "web" [("core", empty); ("web", empty)] = Some empty) as H3
    by reflexivity.
  split; [exact H1|]. split; [exact H2|]. split; [exact H3|].
  destruct (override_records_nothing None (Some ["^legacy-"]) inventory w w
              _ H1 H2) as [_ Hentries].
  exact (proj2 (Hentries "web" empty H3)).
Defined.

Lemma no_selected_team_no_request_witness :
  let w := at_time week replies in
  (∀ team, team ∈ dict_keys catalog → selected (Some ["web"]) team = false)
  ∧ process_services_builds (Some ["web"]) None catalog w = (Ok [], w).
Proof.
  intros w.
  assert (∀ team, team ∈ dict_keys catalog → selected (Some ["web"]) team = false)
    as H1.
  { intros team Hin. apply list_elem_of_singleton in Hin as ->. reflexivity. }
  split; [exact H1|].
  exact (no_selected_team_no_request (Some ["web"]) None catalog w H1).
Defined.

Lemma ledger_keys_distinct : NoDup (dict_keys ledger).
Proof.
  repeat constructor; rewrite ?elem_of_cons, ?elem_of_nil; intuition discriminate.
Qed.

Lemma team_digest_is_one_chunk_witness :
  let digest := team_summary_blocks
                  {| Succeeded := [my_legacy_api]; Failed := [legacy_api] |} in
  generate_team_summaries ledger = Ok [("core", digest)]
  ∧ dict_get "core" [("core", digest)] = Some digest
  ∧ length digest = 5%nat
  ∧ chunks 10 digest = [digest].
Proof.
  intros digest.
  assert (generate_team_summaries ledger = Ok [("core", digest)]) as H1
    by reflexivity.
  assert (dict_get "core" [("core", digest)] = Some digest) as H2 by reflexivity.
  split; [exact H1|]. split; [exact H2|].
  exact (team_digest_is_one_chunk ledger [("core", digest)] "core" digest H1 H2).
Defined.

Lemma team_summaries_keep_the_order_witness :
  let digest := team_summary_blocks
                  {| Succeeded := [my_legacy_api]; Failed := [legacy_api] |} in
  NoDup (dict_keys ledger)
  ∧ generate_team_summaries ledger = Ok [("core", digest)]
  ∧ dict_keys [("core", digest)]
    = List.filter (has_failed ledger) (dict_keys ledger).
Proof.
  intros digest.
  assert (generate_team_summaries ledger = Ok [("core", digest)]) as H1
    by reflexivity.
  split; [exact ledger_keys_distinct|]. split; [exact H1|].
  exact (team_summaries_keep_the_order ledger [("core", digest)]
           ledger_keys_distinct H1).
Defined.

Lemma unconfigured_webhook_exits_witness :
  let w := World week 0 (fun _ => BranchesValues ["main"]) []
             (fun _ => None) [] in
  (environ_get "SLACK_WEBHOOK_URL" w = None
   ∨ environ_get "SLACK_WEBHOOK_URL" w = Some "")
  ∧ post_team_summaries_to_slack [("core", [title; divider])] 10 w
    = (Raise SystemExit, w)
  ∧ post_team_summaries_to_slack [("core", [])] 10 w = (Ok tt, w).
Proof.
  intros w.
  assert (environ_get "SLACK_WEBHOOK_URL" w = None
          ∨ environ_get "SLACK_WEBHOOK_URL" w = Some "") as H1
    by (left; reflexivity).
  split; [exact H1|]. split.
  - exact (unconfigured_webhook_exits [("core", [title; divider])] w H1).
  - exact (unconfigured_webhook_exits [("core", [])] w H1).
Defined.

Lemma configured_webhook_posts_every_chunk_witness :
  let w := at_time week [] in
  "https://hooks" ≠ ""
  ∧ environ_get "SLACK_WEBHOOK_URL" w = Some "https://hooks"
  ∧ (∀ u payload w,
       environ_get "SLACK_WEBHOOK_URL" (requests_post u payload w)
       = environ_get "SLACK_WEBHOOK_URL" w)
  ∧ outbox (snd (post_team_summaries_to_slack
                   [("core", [title; divider])] 10 w))
    = [("https://hooks",
        {| blocks := [title; divider]; channel := "team-core-bots" |})].
Proof.
  intros w.
  assert ("https://hooks" ≠ "") as H1 by discriminate.
  assert (environ_get "SLACK_WEBHOOK_URL" w = Some "https://hooks") as H2
    by reflexivity.
  assert (∀ u payload w,
            environ_get "SLACK_WEBHOOK_URL" (requests_post u payload w)
            = environ_get "SLACK_WEBHOOK_URL" w) as H3 by reflexivity.
  split; [exact H1|]. split; [exact H2|]. split; [exact H3|].
  rewrite (configured_webhook_posts_every_chunk "https://hooks"
             [("core", [title; divider])] w H1 H2 H3).
  reflexivity.
Defined.


Lemma process_services_composes_witness :
  let w := at_time week replies in
  let run := process_services_builds None None catalog w in
  let builds := {| Succeeded := [my_legacy_api]; Failed := [legacy_api] |} in
  run = (Ok [("core", builds)], snd run)
  ∧ process_services None None catalog true w = (Ok tt, snd run)
  ∧ map (λ sent, (channel sent.2, length (blocks sent.2)))
      (outbox (snd (process_services None None catalog false w)))
    = [("team-core-bots", 5); ("team--bots", 5)]%nat.
Proof.
  intros w run builds.
  assert (run = (Ok [("core", builds)], snd run)) as Hrun by reflexivity.
  split; [exact Hrun|].
  destruct (process_services_composes None None catalog w (snd run)
              [("core", builds)] Hrun) as (Hdry & overall & digests & _ & _ & _).
  split; [exact Hdry|]. reflexivity.
Defined.

End MoreRuns.

Section CatalogRuns.
Import SimCatalog.

Example crawl_of_the_scripted_catalog :
  fst (get_active_services 3 tt)
  = Some (Ok [("core",
               [Service "billing" "https://bitbucket.org/acme/billing";
                Service "legacy-api"
                  "https://bitbucket.org/acme/legacy-api/src/main"]);
              ("web", [])])
  ∧ fst (get_active_services 2 tt) = None.
Proof. split; reflexivity. Qed.

Example add_service_without_slug :
  add_service (ServiceDefinition "core" ["https://bitbucket.org/acme"]) []
  = Raise IndexError
  ∧ add_service (ServiceDefinition "core" []) [] = Raise IndexError.
Proof. split; reflexivity. Qed.

Lemma add_service_succeeds_witness :
  let d := ServiceDefinition "web"
             ["https://bitbucket.org/acme/workspace/projects/WEB"] in
  let teams : dict (list service) := [("core", [Sim.billing])] in
  add_service d teams = Ok [("core", [Sim.billing]); ("web", [])]
  ∧ dict_get "web" [("core", [Sim.billing]); ("web", [])] = Some []
  ∧ dict_get "core" [("core", [Sim.billing]); ("web", [])]
    = dict_get "core" teams.
Proof.
  intros d teams.
  assert (add_service d teams = Ok [("core", [Sim.billing]); ("web", [])])
    as Hadd by reflexivity.
  split; [exact Hadd|]. split; [reflexivity|].
  destruct (add_service_succeeds d teams _ Hadd)
    as (url & slug & _ & _ & Hother & _).
  apply Hother. discriminate.
Defined.

Lemma inventory_entries_are_well_formed_witness :
  let run := get_active_services 3 tt in
  let core := [Service "billing" "https://bitbucket.org/acme/billing";
               Service "legacy-api"
                 "https://bitbucket.org/acme/legacy-api/src/main"] in
  run = (Some (Ok [("core", core); ("web", [])]), snd run)
  ∧ NoDup (dict_keys [("core", core); ("web", ([] : list service))])
  ∧ count_char "/" "legacy-api" = 0%nat.
Proof.
  intros run core.
  assert (run = (Some (Ok [("core", core); ("web", [])]), snd run)) as Hrun
    by reflexivity.
  split; [exact Hrun|].
  destruct (inventory_entries_are_well_formed 3 tt (snd run) _ Hrun)
    as [Hnd Hentries].
  split; [exact Hnd|].
  refine (proj2 (proj2 (Hentries "core" core
            (Service "legacy-api" "https://bitbucket.org/acme/legacy-api/src/main")
            eq_refl _))).
  apply elem_of_cons. right. apply elem_of_cons. by left.
Defined.

Lemma crawl_stops_at_first_empty_or_error_page_witness :
  (∀ page w, fst (list_service_definitions page w) = pages page)
  ∧ (∀ j, (j < 2)%nat → pages j = CatalogData (page_data j) ∧ page_data j ≠ [])
  ∧ (pages 2 = CatalogData [] ∨ ∃ e es, pages 2 = CatalogErrors (e :: es))
  ∧ (2 < 3)%nat
  ∧ ∃ teams,
      add_services (page0 ++ page1) [] = Ok teams
      ∧ get_active_services 3 tt = (Some (Ok teams), crawl_requests 0 3 tt).
Proof.
  assert (∀ page (w : unit), fst (list_service_definitions page w) = pages page)
    as H1 by reflexivity.
  assert (∀ j, (j < 2)%nat →
               pages j = CatalogData (page_data j) ∧ page_data j ≠ []) as H2.
  { intros [|[|j]] Hj; [by split | by split | lia]. }
  assert (pages 2 = CatalogData [] ∨ ∃ e es, pages 2 = CatalogErrors (e :: es))
    as H3 by (left; reflexivity).
  assert (2 < 3)%nat as H4 by lia.
  split; [exact H1|]. split; [exact H2|]. split; [exact H3|].
  split; [exact H4|].
  destruct (crawl_stops_at_first_empty_or_error_page pages page_data 2 3 tt
              H1 H2 H3 H4) as [_ Hok].
  eexists. split; [reflexivity|]. apply Hok. reflexivity.
Defined.

End CatalogRuns.

(** ** The ignore list *)

Section OverrideProps.
Context {HR : RegexLib}.

Lemma match_override_miss (s pattern : string) (rest : list string) :
  misses s pattern →
  match_override (PyStr s) (pattern :: rest) = match_override (PyStr s) rest.
Proof. intros (r & Hr & Hs). simpl. by rewrite Hr, Hs. Qed.

(** X22. Called on a slug, [match_override] tries the patterns in order and
    stops at the first that is found in it: it returns [True] exactly when
    some pattern is found and all those before it compile and are not found,
    whatever the patterns after it are, and [False] exactly when every
    pattern compiles and none is found. *)
Theorem match_override_on_slug (s : string) (override : list string) :
  (match_override (PyStr s) override = Ok true ↔
   ∃ before pattern r after,
     override = (before ++ pattern :: after)%list ∧
     Forall (misses s) before ∧
     re_compile pattern = Some r ∧ re_search r s = true) ∧
  (match_override (PyStr s) override = Ok false ↔ Forall (misses s) override).
Proof.
  induction override as [|p override (IHt & IHf)].
  - split.
    + split; [done|]. intros (before & q & r & after & E & _).
      by destruct before.
    + split; [by constructor | done].
  - destruct (re_compile p) as [r|] eqn:Hr.
    + destruct (re_search r s) eqn:Hs.
      * assert (match_override (PyStr s) (p :: override) = Ok true) as ->
          by (simpl; by rewrite Hr, Hs).
        split.
        -- split; [intros _ | done]. by exists [], p, r, override.
        -- split; [done|]. intros Hall. apply Forall_cons in Hall as [Hp _].
           destruct Hp as (r' & Hr' & Hs'). congruence.
      * assert (misses s p) as Hp by (by exists r).
        rewrite (match_override_miss s p override Hp).
        split.
        -- rewrite IHt. split.
           ++ intros (before & q & rq & after & -> & Hb & Hq & Hsq).
              exists (p :: before), q, rq, after.
              split; [done|]. split; [by constructor | done].
           ++ intros (before & q & rq & after & E & Hb & Hq & Hsq).
              destruct before as [|p' before].
              ** injection E as <- <-. congruence.
              ** injection E as <- ->. apply Forall_cons in Hb as [_ Hb].
                 by exists before, q, rq, after.
        -- rewrite IHf. split; [by constructor|].
           intros Hall. by apply Forall_cons in Hall as [_ Hall].
    + assert (match_override (PyStr s) (p :: override) = Raise ReError) as ->
        by (simpl; by rewrite Hr).
      split.
      * split; [done|]. intros (before & q & rq & after & E & Hb & Hq & Hsq).
        destruct before as [|p' before].
        -- injection E as <- <-. congruence.
        -- injection E as <- ->. apply Forall_cons in Hb as [(r' & Hr' & _) _].
           congruence.
      * split; [done|]. intros Hall.
        apply Forall_cons in Hall as [(r' & Hr' & _) _]. congruence.
Qed.

End OverrideProps.

(** ** What the ledger holds for a build that was found *)

Section LedgerRecords.
Context {W : Type} {HC : Collaborators W} {HR : RegexLib}.

Lemma process_teams_app teams override teams_services keys1 keys2 acc (w : W) :
  process_teams teams override teams_services (keys1 ++ keys2) acc w
  = match process_teams teams override teams_services keys1 acc w with
    | (Ok acc1, w1) =>
        process_teams teams override teams_services keys2 acc1 w1
    | (Raise e, w1) => (Raise e, w1)
    end.
Proof.
  revert acc w. induction keys1 as [|k keys1 IH]; intros acc w; simpl; [done|].
  destruct (truthy teams && negb (bool_decide (k ∈ list_of teams))); [apply IH|].
  destruct (dict_get k teams_services) as [services|]; [|done].
  unfold bind.
  destruct (process_team_services override services _ w) as [[b|e] w1];
    [apply IH | done].
Qed.

Lemma process_teams_keeps teams override teams_services keys acc (w w' : W)
    result team :
  team ∉ keys →
  process_teams teams override teams_services keys acc w = (Ok result, w') →
  dict_get team result = dict_get team acc.
Proof.
  revert acc w. induction keys as [|k keys IH]; intros acc w Hteam; simpl.
  - unfold ret. by intros [= <- _].
  - apply not_elem_of_cons in Hteam as [Hne Hteam].
    destruct (truthy teams && negb (bool_decide (k ∈ list_of teams)));
      [by apply IH|].
    destruct (dict_get k teams_services) as [services|]; [|done].
    unfold bind at 1.
    destruct (process_team_services override services _ w) as [[b|e] w1];
      [|done].
    intros Hrest. rewrite (IH _ _ Hteam Hrest), !dict_get_set.
    apply String.eqb_neq in Hne. by rewrite Hne.
Qed.

Lemma process_team_services_app override services1 services2 builds (w : W) :
  process_team_services override (services1 ++ services2) builds w
  = match process_team_services override services1 builds w with
    | (Ok builds1, w1) => process_team_services override services2 builds1 w1
    | (Raise e, w1) => (Raise e, w1)
    end.
Proof.
  revert builds w. induction services1 as [|s services1 IH]; intros builds w;
    simpl; [done|].
  unfold bind.
  destruct (process_service override s builds w) as [[b|e] w1]; [apply IH | done].
Qed.

(** C6. In the ledger the builder returns, a service whose visit found its
    recent scheduled build stands in exactly one list of its team, at the
    place of that visit: in [Failed], after what the earlier services of the
    team put there, when the build has a result and that result is
    ["FAILED"]; in [Succeeded] in the same way for any other result and for
    a build with no result yet. The visit adds nothing to the other list,
    and what follows the service in either list comes from the services
    after it. The visit is the one the pass makes: it starts from the world
    the earlier teams and the earlier services of the team have left. *)
Theorem ledger_records_found_build (teams override : option (list string))
    (teams_services : dict (list service)) (w w' : W)
    (teams_recent_builds : dict team_builds)
    (teams_before teams_after : list string) (team : string) :
  NoDup (dict_keys teams_services) →
  dict_keys teams_services = (teams_before ++ team :: teams_after)%list →
  selected teams team = true →
  process_services_builds teams override teams_services w
    = (Ok teams_recent_builds, w') →
  ∃ ledger_before w0 services builds,
    process_teams teams override teams_services teams_before [] w
      = (Ok ledger_before, w0) ∧
    dict_get team teams_services = Some services ∧
    dict_get team teams_recent_builds = Some builds ∧
    ∀ before s after,
      services = (before ++ s :: after)%list →
      ∃ earlier wi,
        process_team_services override before
          {| Succeeded := []; Failed := [] |} w0 = (Ok earlier, wi) ∧
        ∀ pipelines p w1 w2 w3,
          get_latest_pipelines (RepositorySlug s) wi = (Some pipelines, w1) →
          pipelines ≠ [] →
          check_development_status pipelines w1 = (false, w2) →
          get_recent_scheduled_pipeline (RepositorySlug s) pipelines w2
            = (Ok (Some p), w3) →
          ∃ later_succeeded later_failed,
            later_succeeded `sublist_of` after ∧
            later_failed `sublist_of` after ∧
            (state_result p = Some "FAILED" →
               Failed builds = (Failed earlier ++ s :: later_failed)%list ∧
               Succeeded builds = (Succeeded earlier ++ later_succeeded)%list) ∧
            (state_result p ≠ Some "FAILED" →
               Succeeded builds = (Succeeded earlier ++ s :: later_succeeded)%list ∧
               Failed builds = (Failed earlier ++ later_failed)%list).
Proof.
  intros Hnd Hkeys Hsel Hrun. unfold process_services_builds in Hrun.
  rewrite Hkeys in Hrun, Hnd. rewrite process_teams_app in Hrun.
  destruct (process_teams teams override teams_services teams_before [] w)
    as [[ledger_before|e] w0]; [|done].
  simpl in Hrun. rewrite skip_test, Hsel in Hrun. simpl in Hrun.
  destruct (dict_get team teams_services) as [services|]; [|done].
  unfold bind at 1 in Hrun.
  destruct (process_team_services override services _ w0) as [[builds|e] wt]
    eqn:Hteam; [|done].
  apply NoDup_app in Hnd as (_ & _ & Hnd). apply NoDup_cons in Hnd as [Hfresh _].
  apply (process_teams_keeps _ _ _ _ _ _ _ _ team Hfresh) in Hrun as Hget.
  rewrite !dict_get_set, String.eqb_refl in Hget.
  exists ledger_before, w0, services, builds.
  split; [done|]. split; [done|]. split; [done|].
  intros before s after ->. rewrite process_team_services_app in Hteam.
  destruct (process_team_services override before _ w0) as [[earlier|e] wi];
    [|done].
  exists earlier, wi. split; [done|].
  intros pipelines p w1 w2 w3 Hp Hne Hd Hf. simpl in Hteam.
  unfold bind at 1 in Hteam.
  destruct (process_service override s earlier wi) as [[mid|e] wj] eqn:Hvisit;
    [|done].
  assert (overridden override s = Ok false) as Ho.
  { apply overridden_false. destruct (truthy override) eqn:Ht; [|done].
    destruct (process_service_override_raises override s earlier wi Ht) as [E|E];
      rewrite E in Hvisit; done. }
  destruct (process_service_records_result override s earlier pipelines p
              wi w1 w2 w3 Ho Hp Hne Hd Hf) as (mid' & Hmid & Hfailed & Hother).
  rewrite Hmid in Hvisit. injection Hvisit as -> ->.
  rewrite process_team_services_visits in Hteam.
  destruct (visits override after wj) as [[outcomes|e] wk]; [|done].
  injection Hteam as <- _. simpl.
  exists (select BuildSucceeded after outcomes), (select BuildFailed after outcomes).
  split; [apply select_sublist|]. split; [apply select_sublist|].
  split; intros Hstate.
  - rewrite (Hfailed Hstate). simpl. by rewrite <- app_assoc.
  - rewrite (Hother Hstate). simpl. by rewrite <- app_assoc.
Qed.

End LedgerRecords.

Section LedgerRecordsRun.
Import Sim.

Lemma ledger_records_found_build_witness :
  let w := at_time week replies in
  let run := process_services_builds None None catalog w in
  let builds := {| Succeeded := [my_legacy_api]; Failed := [legacy_api] |} in
  let failed := scheduled_run "main" (Some "FAILED") in
  let running := scheduled_run "main" None in
  let w1 := snd (get_latest_pipelines "legacy-api" w) in
  let w2 := snd (get_latest_pipelines "my-legacy-api" w1) in
  NoDup (dict_keys catalog)
  ∧ dict_keys catalog = ([] ++ "core" :: [])%list
  ∧ selected None "core" = true
  ∧ run = (Ok [("core", builds)], snd run)
  ∧ get_latest_pipelines (RepositorySlug legacy_api) w = (Some [failed], w1)
  ∧ get_recent_scheduled_pipeline (RepositorySlug legacy_api) [failed] w1
    = (Ok (Some failed), w1)
  ∧ get_latest_pipelines (RepositorySlug my_legacy_api) w1
    = (Some [running], w2)
  ∧ get_recent_scheduled_pipeline (RepositorySlug my_legacy_api) [running] w2
    = (Ok (Some running), w2)
  ∧ (∃ later, Failed builds = legacy_api :: later)
  ∧ (∃ later, Succeeded builds = my_legacy_api :: later).
Proof.
  intros w run builds failed running w1 w2.
  assert (dict_keys catalog = ([] ++ "core" :: [])%list) as Hkeys by reflexivity.
  assert (selected None "core" = true) as Hsel by reflexivity.
  assert (run = (Ok [("core", builds)], snd run)) as Hrun by reflexivity.
  assert (get_latest_pipelines (RepositorySlug legacy_api) w
          = (Some [failed], w1)) as Ha1 by reflexivity.
  assert (get_recent_scheduled_pipeline (RepositorySlug legacy_api) [failed] w1
          = (Ok (Some failed), w1)) as Ha2 by reflexivity.
  assert (get_latest_pipelines (RepositorySlug my_legacy_api) w1
          = (Some [running], w2)) as Hb1 by reflexivity.
  assert (get_recent_scheduled_pipeline (RepositorySlug my_legacy_api)
            [running] w2 = (Ok (Some running), w2)) as Hb2 by reflexivity.
  split; [exact catalog_keys_distinct|]. split; [exact Hkeys|].
  split; [exact Hsel|]. split; [exact Hrun|]. split; [exact Ha1|].
  split; [exact Ha2|]. split; [exact Hb1|]. split; [exact Hb2|].
  destruct (ledger_records_found_build None None catalog w (snd run)
              [("core", builds)] [] [] "core" catalog_keys_distinct Hkeys Hsel
              Hrun)
    as (ledger_before & w0 & services & builds' & Hbefore & Hservices & Hget
        & Hvisits).
  injection Hbefore as <- <-. injection Hservices as <-. injection Hget as <-.
  split.
  - destruct (Hvisits [] legacy_api [my_legacy_api; billing] eq_refl)
      as (earlier & wi & Hearlier & Hfound).
    injection Hearlier as <- <-.
    destruct (Hfound [failed] failed w1 w1 w1 Ha1 ltac:(discriminate) eq_refl Ha2)
      as (later_s & later_f & _ & _ & Hfailed & _).
    exists later_f. exact (proj1 (Hfailed eq_refl)).
  - destruct (Hvisits [legacy_api] my_legacy_api [billing] eq_refl)
      as (earlier & wi & Hearlier & Hfound).
    injection Hearlier as <- <-.
    destruct (Hfound [running] running w2 w2 w2 Hb1 ltac:(discriminate) eq_refl Hb2)
      as (later_s & later_f & _ & _ & _ & Hother).
    exists later_s. exact (proj1 (Hother ltac:(discriminate))).
Defined.

End LedgerRecordsRun.
